(** * autoCrack.py: the tracking-and-orchestration core, embedded in Rocq

    The development follows [src/autoCrack.py] function by function.
    Python [str] values are modelled as [string]; a character is an
    [ascii], read as a code point below 256.  Python lists are lists,
    the set of [(hash, mode_id)] tuples is a [gset], and the values
    that [json.load] hands back are the trees of [pyval]. *)

From Stdlib Require Import ZArith NArith Ascii String List Bool Lia.
From stdpp Require Import base decidable option list countable gmap strings.

Open Scope string_scope.
Open Scope list_scope.

(** ** Python strings *)

Module PyStr.

Definition code (c : ascii) : N := N_of_ascii c.

(** [str.isspace] on one character (code points below 256):
    U+0009..U+000D, U+001C..U+001F, U+0020, U+0085, U+00A0. *)
Definition is_space (c : ascii) : bool :=
  let n := code c in
  ((9 <=? n) && (n <=? 13) || (28 <=? n) && (n <=? 31)
   || (n =? 32) || (n =? 133) || (n =? 160))%N.

(** The line boundaries of [str.splitlines] (code points below 256):
    LF, VT, FF, CR, FS, GS, RS and NEL. *)
Definition is_linebreak (c : ascii) : bool :=
  let n := code c in
  ((10 <=? n) && (n <=? 13) || (28 <=? n) && (n <=? 30) || (n =? 133))%N.

Definition LF : ascii := ascii_of_N 10.
Definition CR : ascii := ascii_of_N 13.
Definition colon : ascii := ":"%char.

Definition is_empty (s : string) : bool :=
  match s with EmptyString => true | String _ _ => false end.

Fixpoint lstrip (s : string) : string :=
  match s with
  | String c s' => if is_space c then lstrip s' else s
  | EmptyString => EmptyString
  end.

Fixpoint rstrip (s : string) : string :=
  match s with
  | String c s' =>
      let r := rstrip s' in
      if is_empty r && is_space c then EmptyString else String c r
  | EmptyString => EmptyString
  end.

(** [s.strip()] *)
Definition strip (s : string) : string := rstrip (lstrip s).

(** [s.splitlines()]: a line ends at a boundary character, CR LF
    counts as one boundary, and no empty line is reported after the
    last boundary. *)
Fixpoint splitlines (s : string) : list string :=
  match s with
  | EmptyString => []
  | String c s' =>
      if is_linebreak c then
        EmptyString ::
          match s' with
          | String d s'' =>
              if (Ascii.eqb c CR && Ascii.eqb d LF)%bool
              then splitlines s'' else splitlines s'
          | EmptyString => splitlines s'
          end
      else
        match splitlines s' with
        | [] => [String c EmptyString]
        | l :: ls => String c l :: ls
        end
  end.

(** [sep in s] for a one-character [sep] *)
Fixpoint contains (sep : ascii) (s : string) : bool :=
  match s with
  | EmptyString => false
  | String c s' => Ascii.eqb c sep || contains sep s'
  end.

(** [s.split(sep, 1)] for a one-character [sep]: at most one cut, at
    the first occurrence. *)
Fixpoint split1 (sep : ascii) (s : string) : list string :=
  match s with
  | EmptyString => [EmptyString]
  | String c s' =>
      if Ascii.eqb c sep then [EmptyString; s']
      else match split1 sep s' with
           | p :: rest => String c p :: rest
           | [] => []
           end
  end.

(** [s.startswith(p)] *)
Definition startswith (p s : string) : bool := String.prefix p s.

End PyStr.

(** ** Python values and exceptions *)

(** The values [json.load] can return (numbers with a fraction or an
    exponent are left out of the model).  A [PyDict] lists its items in
    insertion order; a key is looked up from the front. *)
#[local] Set Warnings "-register-all".
Inductive pyval : Type :=
| PyNone
| PyBool (b : bool)
| PyInt (z : Z)
| PyStr (s : string)
| PyList (items : list pyval)
| PyDict (fields : list (string * pyval)).

Inductive exn : Type :=
| SystemExit (code : Z)
| KeyError
| TypeError
| AttributeError
| ValueError
| FileNotFoundError.

Inductive result (A : Type) : Type :=
| Ok (a : A)
| Raise (e : exn).
Arguments Ok {A} a.
Arguments Raise {A} e.

#[global] Instance result_ret : MRet result := fun _ a => Ok a.
#[global] Instance result_bind : MBind result := fun _ _ f r =>
  match r with
  | Ok a => f a
  | Raise e => Raise e
  end.

(** What a hashable JSON value is as a set element: [True == 1] and
    [False == 0] in Python, so a boolean counts as its integer. *)
Inductive atom : Type :=
| ANone
| AInt (z : Z)
| AStr (s : string).

#[global] Instance atom_eq_dec : EqDecision atom.
Proof. solve_decision. Defined.

Definition atom_code (a : atom) : option (Z + string) :=
  match a with
  | ANone => None
  | AInt z => Some (inl z)
  | AStr s => Some (inr s)
  end.

Definition atom_decode (c : option (Z + string)) : atom :=
  match c with
  | None => ANone
  | Some (inl z) => AInt z
  | Some (inr s) => AStr s
  end.

#[global] Instance atom_countable : Countable atom.
Proof.
  apply (inj_countable' atom_code atom_decode).
  intros [| |]; reflexivity.
Defined.

(** A [(hash, mode_id)] tuple *)
Definition key : Type := atom * atom.
Abbreviation keyset := (gset (atom * atom)).

(** The key a [(h, mode_id)] tuple of two strings is. *)
Definition str_key (h mode_id : string) : key := (AStr h, AStr mode_id).

(** [hash(v)]: lists and dicts are unhashable. *)
Definition py_hash (v : pyval) : result atom :=
  match v with
  | PyNone => Ok ANone
  | PyBool b => Ok (AInt (if b then 1 else 0)%Z)
  | PyInt z => Ok (AInt z)
  | PyStr s => Ok (AStr s)
  | PyList _ | PyDict _ => Raise TypeError
  end.

Fixpoint chars (s : string) : list pyval :=
  match s with
  | EmptyString => []
  | String c s' => PyStr (String c EmptyString) :: chars s'
  end.

(** [for x in v]: a list yields its items, a dict its keys, a string
    its characters; nothing else is iterable. *)
Definition py_iter (v : pyval) : result (list pyval) :=
  match v with
  | PyList items => Ok items
  | PyDict fields => Ok (map (fun kv => PyStr (fst kv)) fields)
  | PyStr s => Ok (chars s)
  | PyNone | PyBool _ | PyInt _ => Raise TypeError
  end.

Fixpoint dict_get (k : string) (fields : list (string * pyval)) : option pyval :=
  match fields with
  | [] => None
  | (k', v) :: rest => if String.eqb k' k then Some v else dict_get k rest
  end.

(** [v[k]] for a string [k] *)
Definition py_getitem (v : pyval) (k : string) : result pyval :=
  match v with
  | PyDict fields =>
      match dict_get k fields with
      | Some x => Ok x
      | None => Raise KeyError
      end
  | _ => Raise TypeError
  end.

(** [(entry["hash"], entry["mode_id"])] as a set element *)
Definition entry_key (entry : pyval) : result key :=
  h ← py_getitem entry "hash";
  m ← py_getitem entry "mode_id";
  a ← py_hash h;
  b ← py_hash m;
  Ok (a, b).

Fixpoint collect_keys (entries : list pyval) (seen : keyset) : result keyset :=
  match entries with
  | [] => Ok seen
  | entry :: rest =>
      k ← entry_key entry; collect_keys rest ({[ k ]} ∪ seen)
  end.

(** [{(entry["hash"], entry["mode_id"]) for entry in data}] *)
Definition key_set (data : pyval) : result keyset :=
  entries ← py_iter data; collect_keys entries ∅.

(** The dict built in [main] for one cracked pair *)
Definition make_entry (h mode_id clear timestamp : string) : pyval :=
  PyDict [("hash", PyStr h); ("mode_id", PyStr mode_id);
          ("clear", PyStr clear); ("timestamp", PyStr timestamp)].

(** A value that is a list of records: every item is a dict with a
    hashable ["hash"] and a hashable ["mode_id"]. *)
Definition is_record (entry : pyval) : Prop :=
  exists k, entry_key entry = Ok k.

Definition record_list (data : pyval) : Prop :=
  exists items, data = PyList items /\ Forall is_record items.

(** A record of the ledger, as the spec has it *)
Record log_entry : Type := LogEntry {
  le_hash : string;
  le_mode_id : string;
  le_clear : string;
  le_timestamp : string
}.

Definition entry_dict (e : log_entry) : pyval :=
  make_entry (le_hash e) (le_mode_id e) (le_clear e) (le_timestamp e).

Definition entry_tuple (e : log_entry) : key :=
  str_key (le_hash e) (le_mode_id e).

(** ** The regular expression of [get_candidate_modes]

    A pattern is a sequence of quantified character classes, some of
    them captured, matched from the start of the line up to [$] with
    Python's backtracking order: a greedy quantifier tries the longest
    run first, the lazy one the shortest. *)

Module Re.

Inductive quantifier : Type := Once | Star | Plus | LazyPlus.

Record item : Type := Item {
  cls : ascii -> bool;
  quant : quantifier;
  captured : bool
}.

Section Backtrack.
Context {R : Type}.
Variable accepts : ascii -> bool.
(** [k taken rest]: the rest of the pattern, given what this
    quantifier took and what is left of the line *)
Variable k : string -> string -> option R.

Definition once (rest : string) : option R :=
  match rest with
  | String c rest' =>
      if accepts c then k (String c EmptyString) rest' else None
  | EmptyString => None
  end.

Fixpoint greedy (taken rest : string) : option R :=
  match rest with
  | String c rest' =>
      if accepts c then
        match greedy (taken +:+ String c EmptyString) rest' with
        | Some r => Some r
        | None => k taken rest
        end
      else k taken rest
  | EmptyString => k taken rest
  end.

Fixpoint reluctant (taken rest : string) : option R :=
  match k taken rest with
  | Some r => Some r
  | None =>
      match rest with
      | String c rest' =>
          if accepts c
          then reluctant (taken +:+ String c EmptyString) rest'
          else None
      | EmptyString => None
      end
  end.
End Backtrack.

(** [$]: the end of the string, or just before a final line feed *)
Definition at_end (rest : string) : bool :=
  match rest with
  | EmptyString => true
  | String c EmptyString => Ascii.eqb c PyStr.LF
  | _ => false
  end.

Fixpoint run (p : list item) (groups : list string) (rest : string)
  : option (list string) :=
  match p with
  | [] => if at_end rest then Some groups else None
  | it :: p' =>
      let k taken rest' :=
        run p' (if captured it then groups ++ [taken] else groups) rest' in
      match quant it with
      | Once => once (cls it) k rest
      | Star => greedy (cls it) k EmptyString rest
      | Plus =>
          match rest with
          | String c rest' =>
              if cls it c then greedy (cls it) k (String c EmptyString) rest'
              else None
          | EmptyString => None
          end
      | LazyPlus =>
          match rest with
          | String c rest' =>
              if cls it c
              then reluctant (cls it) k (String c EmptyString) rest'
              else None
          | EmptyString => None
          end
      end
  end.

(** [\d] on code points below 256 *)
Definition digit (c : ascii) : bool :=
  let n := PyStr.code c in ((48 <=? n) && (n <=? 57))%N.
(** [.]: anything but a line feed *)
Definition dot (c : ascii) : bool := negb (Ascii.eqb c PyStr.LF).
Definition bar (c : ascii) : bool := Ascii.eqb c "|"%char.

(** [^\s*(\d+)\s*\|\s*(.+?)\s*\|\s*(.+)$] *)
Definition pattern : list item :=
  [ Item PyStr.is_space Star false;
    Item digit Plus true;
    Item PyStr.is_space Star false;
    Item bar Once false;
    Item PyStr.is_space Star false;
    Item dot LazyPlus true;
    Item PyStr.is_space Star false;
    Item bar Once false;
    Item PyStr.is_space Star false;
    Item dot Plus true ].

(** [pattern.match(line)]: the three groups of a match *)
Definition match_line (line : string) : option (list string) :=
  run pattern [] line.

End Re.

(** ** Reading the hash file *)

(** The lines a text file yields when iterated: each ends at LF, CR
    or CR LF, and keeps its terminator as a single LF. *)
Fixpoint file_lines (content : string) : list string :=
  match content with
  | EmptyString => []
  | String c s' =>
      if (Ascii.eqb c PyStr.LF || Ascii.eqb c PyStr.CR)%bool then
        String PyStr.LF EmptyString ::
          match s' with
          | String d s'' =>
              if (Ascii.eqb c PyStr.CR && Ascii.eqb d PyStr.LF)%bool
              then file_lines s'' else file_lines s'
          | EmptyString => file_lines s'
          end
      else
        match file_lines s' with
        | [] => [String c EmptyString]
        | l :: ls => String c l :: ls
        end
  end.

(** The body of [get_all_hashes], given the text of the file *)
Definition hashes_of_text (content : string) : list string :=
  fold_left
    (fun hashes line =>
       let h := PyStr.strip line in
       if (negb (PyStr.is_empty h) && negb (PyStr.startswith "#" h))%bool
       then hashes ++ [h] else hashes)
    (file_lines content) [].

(** ** The pending list of a mode *)

(** [[h for h in all_hashes if (h, mode_id) not in already_cracked]]:
    the comprehension runs through [all_hashes] and appends to the
    result. *)
Definition pending_hashes (all_hashes : list string) (mode_id : string)
    (already_cracked : keyset) : list string :=
  fold_left
    (fun pending h =>
       if bool_decide (str_key h mode_id ∉ already_cracked)
       then pending ++ [h] else pending)
    all_hashes [].

(** ** Parsing the output of the show call *)

(** [h, clear = line.split(":", 1)]: unpacking needs exactly two parts. *)
Definition unpack_pair (parts : list string) : result (string * string) :=
  match parts with
  | [h; clear] => Ok (h, clear)
  | _ => Raise ValueError
  end.

(** The loop of [extract_cracked_from_pot] over the lines *)
Fixpoint collect_pairs (lines : list string) (pairs : list (string * string))
  : result (list (string * string)) :=
  match lines with
  | [] => Ok pairs
  | line :: rest =>
      if PyStr.contains PyStr.colon line then
        p ← unpack_pair (PyStr.split1 PyStr.colon line);
        collect_pairs rest (pairs ++ [p])
      else collect_pairs rest pairs
  end.

(** What [extract_cracked_from_pot] does with the captured stdout *)
Definition pairs_of_stdout (stdout : string) : result (list (string * string)) :=
  collect_pairs (PyStr.splitlines (PyStr.strip stdout)) [].

(** A line that holds a colon, and the pair that cuts such a line at
    its first colon: the two notions the properties of the extraction
    are stated with. *)
Definition has_colon (line : string) : Prop :=
  PyStr.contains PyStr.colon line = true.

#[global] Instance has_colon_dec line : Decision (has_colon line).
Proof. unfold has_colon. apply _. Defined.

Definition cut_at_first_colon (line : string) (p : string * string) : Prop :=
  line = p.1 +:+ String PyStr.colon p.2
  /\ PyStr.contains PyStr.colon p.1 = false.

(** A show output that lists hashes of the subset only: each line with
    a colon is [h:cleartext] for a colon-free [h] of the subset. *)
Definition reports_subset (subset : list string) (stdout : string) : Prop :=
  Forall
    (fun line =>
       has_colon line ->
       exists h clear,
         cut_at_first_colon line (h, clear) /\ h ∈ subset)
    (PyStr.splitlines (PyStr.strip stdout)).

(** ** The outside world

    What the program does not own: the [json] codec that reads and
    writes [crack_log.json], the [hashcat] binary and the clock.  A
    [World] value is the state of everything outside the process; the
    three [hashcat] calls and the clock read and advance it. *)
Class Env : Type := {
  (** the text of a ledger file *)
  text : Type;
  (** [json.load(f)]; [None] when it raises *)
  json_load : text -> option pyval;
  (** [json.dump(v, f, indent=2)] *)
  json_dump : pyval -> text;
  World : Type;
  (** [hashcat --show <hash_file>]: the captured stdout, or [None]
      when the binary is not found *)
  hashcat_enumerate : string -> World -> option string * World;
  (** [hashcat -m <mode> -a 0 --quiet --potfile-path <pot> <subset>
      <wordlist>] on a fresh potfile: the return code.  The subset file
      is given by the hashes written to it. *)
  hashcat_attack : string -> list string -> string -> World -> Z * World;
  (** the same call with [--show]: the captured stdout *)
  hashcat_show : string -> list string -> string -> World -> string * World;
  (** [datetime.now(timezone.utc).isoformat()] *)
  utc_now : World -> string * World
}.

(** What the program prints (the wording is left out) *)
Inductive message : Type :=
| MsgUsage (prog : string)
| MsgHashFileError (path : string)
| MsgWordlistError (path : string)
| MsgEnumerating (hash_file : string)
| MsgNoHashcat
| MsgNoCandidates
| MsgCandidates (candidates : list (string * string))
| MsgStarting
| MsgSkipped (mode_id mode_name : string)
| MsgMode (mode_id mode_name : string)
| MsgFound
| MsgNotFound
| MsgPair (h clear : string)
| MsgSummaryHeader
| MsgNothingCracked
| MsgModeSummary (mode_id mode_name : string) (count : nat)
| MsgAllDone.

(** What the program does to the outside, in order *)
Inductive event : Type :=
| Print (m : message)
| Enumerate (hash_file : string)
| CreateSubsetFile (lines : list string)
| CreatePotFile
| Attack (mode_id : string)
| Show (mode_id : string)
| AppendLog (entry : pyval)
| RemovePotFile
| RemoveSubsetFile.

(** One record of [cracked_summary] *)
Definition summary_record : Type := string * string * list (string * string).

(** ** The program *)

Section Program.
Context `{E : Env}.

(** The variables of [main] that change during a run, the ledger
    file and the outside world.  [log_entries] is the one list object
    that [load_log_entries] returns and [append_log] extends in
    place. *)
Record state : Type := State {
  already_cracked : keyset;
  log_entries : pyval;
  cracked_summary : list summary_record;
  ledger : option text;
  world : World;
  trace : list event
}.

(** A statement: it runs from a state, ends normally or raises, and
    leaves a state behind either way. *)
Definition M (A : Type) : Type := state -> result A * state.

#[global] Instance M_ret : MRet M := fun _ a s => (Ok a, s).
#[global] Instance M_bind : MBind M := fun _ _ f m s =>
  match m s with
  | (Ok a, s') => f a s'
  | (Raise e, s') => (Raise e, s')
  end.

Definition raise {A} (e : exn) : M A := fun s => (Raise e, s).
Definition get : M state := fun s => (Ok s, s).

(** [sys.exit(code)] *)
Definition sys_exit {A} (code : Z) : M A := raise (SystemExit code).

Definition emit (e : event) : M unit := fun s =>
  (Ok tt,
   State (already_cracked s) (log_entries s) (cracked_summary s)
         (ledger s) (world s) (trace s ++ [e])).

Definition print (m : message) : M unit := emit (Print m).

(** A call that reads and advances the outside world *)
Definition call {A} (f : World -> A * World) : M A := fun s =>
  let (a, w) := f (world s) in
  (Ok a,
   State (already_cracked s) (log_entries s) (cracked_summary s)
         (ledger s) w (trace s)).

(** [for x in l: body(x)] *)
Fixpoint for_each {A} (body : A -> M unit) (l : list A) : M unit :=
  match l with
  | [] => mret tt
  | x :: rest => body x ;; for_each body rest
  end.

(** [validate_args]: [files] gives the content of each path that is
    a regular file. *)
Definition bad_file (files : string -> option string) (path : string) : bool :=
  match files path with
  | None => true
  | Some content => PyStr.is_empty content
  end.

Definition validate_args (argv : list string)
    (files : string -> option string) : M (string * string) :=
  match argv with
  | [_; hash_file; wordlist] =>
      if bad_file files hash_file then
        print (MsgHashFileError hash_file) ;; sys_exit 1
      else if bad_file files wordlist then
        print (MsgWordlistError wordlist) ;; sys_exit 1
      else mret (hash_file, wordlist)
  | _ => print (MsgUsage (hd "" argv)) ;; sys_exit 1
  end.

(** [load_log_entries], given the ledger file ([None]: no such file) *)
Definition load_log_entries (file : option text) : keyset * pyval :=
  match file with
  | Some t =>
      match json_load t with
      | Some data =>
          match key_set data with
          | Ok seen => (seen, data)
          | Raise _ => (∅, PyList [])
          end
      | None => (∅, PyList [])
      end
  | None => (∅, PyList [])
  end.

(** [already_cracked, log_entries = load_log_entries()] *)
Definition load_log : M unit := fun s =>
  let (seen, data) := load_log_entries (ledger s) in
  (Ok tt, State seen data (cracked_summary s) (ledger s) (world s) (trace s)).

(** [append_log(log_entries, entry)]: only a list has [append]. *)
Definition append_log (entry : pyval) : M unit := fun s =>
  match log_entries s with
  | PyList items =>
      let entries := PyList (items ++ [entry]) in
      (Ok tt,
       State (already_cracked s) entries (cracked_summary s)
             (Some (json_dump entries)) (world s)
             (trace s ++ [AppendLog entry]))
  | _ => (Raise AttributeError, s)
  end.

(** [get_all_hashes] *)
Definition get_all_hashes (files : string -> option string)
    (hash_file : string) : M (list string) :=
  match files hash_file with
  | Some content => mret (hashes_of_text content)
  | None => raise FileNotFoundError
  end.

(** The loop of [get_candidate_modes] over the lines of stdout *)
Definition modes_of_stdout (stdout : string) : list (string * string) :=
  fold_left
    (fun candidate_modes line =>
       match Re.match_line line with
       | Some [g1; g2; _] =>
           candidate_modes ++ [(PyStr.strip g1, PyStr.strip g2)]
       | _ => candidate_modes
       end)
    (PyStr.splitlines stdout) [].

Definition get_candidate_modes (hash_file : string) : M (list (string * string)) :=
  emit (Enumerate hash_file) ;;
  out ← call (hashcat_enumerate hash_file);
  match out with
  | None => print MsgNoHashcat ;; sys_exit 1
  | Some stdout => mret (modes_of_stdout stdout)
  end.

(** [run_hashcat_with_pot]; [subset] is what the subset file holds. *)
Definition run_hashcat_with_pot (mode : string) (subset : list string)
    (wordlist : string) : M bool :=
  emit (Attack mode) ;;
  returncode ← call (hashcat_attack mode subset wordlist);
  mret (returncode =? 0)%Z.

(** [extract_cracked_from_pot] *)
Definition extract_cracked_from_pot (mode : string) (subset : list string)
    (wordlist : string) : M (list (string * string)) :=
  emit (Show mode) ;;
  stdout ← call (hashcat_show mode subset wordlist);
  match pairs_of_stdout stdout with
  | Ok pairs => mret pairs
  | Raise e => raise e
  end.

(** [cracked_summary.append(record)] *)
Definition summary_append (record : summary_record) : M unit := fun s =>
  (Ok tt,
   State (already_cracked s) (log_entries s) (cracked_summary s ++ [record])
         (ledger s) (world s) (trace s)).

(** The body of [for h, clear in pairs] in [main] *)
Definition log_pair (mode_id mode_name : string)
    (pairs : list (string * string)) (p : string * string) : M unit :=
  print (MsgPair p.1 p.2) ;;
  timestamp ← call utc_now;
  append_log (make_entry p.1 mode_id p.2 timestamp) ;;
  summary_append (mode_id, mode_name, pairs).

(** The body of [for mode_id, mode_name in candidates] in [main] *)
Definition attempt_mode (all_hashes : list string) (wordlist : string)
    (candidate : string * string) : M unit :=
  let mode_id := candidate.1 in
  let mode_name := candidate.2 in
  s ← get;
  let pending := pending_hashes all_hashes mode_id (already_cracked s) in
  match pending with
  | [] => print (MsgSkipped mode_id mode_name)
  | _ :: _ =>
      print (MsgMode mode_id mode_name) ;;
      emit (CreateSubsetFile pending) ;;
      emit CreatePotFile ;;
      cracked ← run_hashcat_with_pot mode_id pending wordlist;
      (if cracked : bool then
         pairs ← extract_cracked_from_pot mode_id pending wordlist;
         print MsgFound ;;
         for_each (log_pair mode_id mode_name pairs) pairs
       else print MsgNotFound) ;;
      emit RemovePotFile ;;
      emit RemoveSubsetFile
  end.

(** The loop of the final summary *)
Definition print_record (record : summary_record) : M unit :=
  print (MsgModeSummary record.1.1 record.1.2 (length record.2)) ;;
  for_each (fun p : string * string => print (MsgPair p.1 p.2)) record.2.

Definition clear_summary : M unit := fun s =>
  (Ok tt,
   State (already_cracked s) (log_entries s) [] (ledger s) (world s) (trace s)).

(** [main] up to the mode loop: the arguments, the ledger, the
    candidate modes and the hashes *)
Definition prologue (argv : list string) (files : string -> option string)
  : M (list (string * string) * list string * string) :=
  args ← validate_args argv files;
  let hash_file := args.1 in
  let wordlist := args.2 in
  load_log ;;
  print (MsgEnumerating hash_file) ;;
  candidates ← get_candidate_modes hash_file;
  match candidates with
  | [] => print MsgNoCandidates ;; sys_exit 1
  | _ :: _ =>
      all_hashes ← get_all_hashes files hash_file;
      print (MsgCandidates candidates) ;;
      clear_summary ;;
      print MsgStarting ;;
      mret (candidates, all_hashes, wordlist)
  end.

(** [for mode_id, mode_name in candidates: ...] *)
Definition mode_loop (all_hashes : list string) (wordlist : string)
    (candidates : list (string * string)) : M unit :=
  for_each (attempt_mode all_hashes wordlist) candidates.

(** [main] after the mode loop: the summary and the exit *)
Definition epilogue : M unit :=
  print MsgSummaryHeader ;;
  s ← get;
  match cracked_summary s with
  | [] => print MsgNothingCracked ;; sys_exit 0
  | _ :: _ =>
      for_each print_record (cracked_summary s) ;;
      print MsgAllDone ;;
      sys_exit 0
  end.

Definition main (argv : list string) (files : string -> option string) : M unit :=
  setup ← prologue argv files;
  mode_loop setup.1.2 setup.2 setup.1.1 ;;
  epilogue.

(** The state a process starts in: only the ledger file and the
    world matter, [main] assigns the rest before it reads it. *)
Definition boot (file : option text) (w : World) : state :=
  State ∅ (PyList []) [] file w [].

End Program.

(** ** Notions the properties are stated with *)

Section Notions.
Context `{E : Env}.

(** [triple P m Q X]: run from a state in [P], the statement [m]
    either ends normally with a value and a state in [Q], or raises
    an exception with a state in [X]. *)
Definition triple {A} (P : state -> Prop) (m : M A)
    (Q : A -> state -> Prop) (X : exn -> state -> Prop) : Prop :=
  forall s, P s ->
    match m s with
    | (Ok a, s') => Q a s'
    | (Raise e, s') => X e s'
    end.

Definition with_trace (s : state) (tr : list event) : state :=
  State (already_cracked s) (log_entries s) (cracked_summary s)
        (ledger s) (world s) tr.
Definition with_world (s : state) (w : World) : state :=
  State (already_cracked s) (log_entries s) (cracked_summary s)
        (ledger s) w (trace s).
Definition with_summary (s : state) (l : list summary_record) : state :=
  State (already_cracked s) (log_entries s) l (ledger s) (world s) (trace s).

Definition is_append (e : event) : bool :=
  match e with AppendLog _ => true | _ => false end.

(** A property of states that printing, the temporary files, the
    calls to the outside and the summary list leave alone: only a
    call of [append_log] can break it. *)
Record stable (I : state -> Prop) : Prop := Stable {
  stable_emit : forall s e,
    is_append e = false -> I s -> I (with_trace s (trace s ++ [e]));
  stable_world : forall s w, I s -> I (with_world s w);
  stable_summary : forall s l, I s -> I (with_summary s l)
}.

(** The conditions under which [main] calls [sys.exit(1)]: a wrong
    number of arguments, a hash file or wordlist that is missing or
    empty, no [hashcat] binary, or no candidate mode in the output of
    the enumeration. *)
Definition no_modes (hash_file : string) (w : World) : Prop :=
  exists stdout,
    (hashcat_enumerate hash_file w).1 = Some stdout
    /\ modes_of_stdout stdout = [].

Definition fatal_condition (argv : list string)
    (files : string -> option string) (w : World) : Prop :=
  length argv <> 3
  \/ bad_file files (nth 1 argv "") = true
  \/ bad_file files (nth 2 argv "") = true
  \/ (hashcat_enumerate (nth 1 argv "") w).1 = None
  \/ no_modes (nth 1 argv "") w.

(** The entries that [append_log] was called with, oldest first *)
Definition logged (tr : list event) : list pyval :=
  omap (fun e => match e with AppendLog entry => Some entry | _ => None end) tr.

(** The states a run can be in once the ledger is loaded into [s0]:
    what printing, the temporary files, the calls to the outside, the
    summary list and the calls of [append_log] on an entry built in
    [main] lead to.  The list holds the tuples of the entries
    appended on the way, oldest first. *)
Inductive run_to (s0 : state) : list key -> state -> Prop :=
| run_start : run_to s0 [] s0
| run_emit ks s e :
    run_to s0 ks s -> is_append e = false ->
    run_to s0 ks (with_trace s (trace s ++ [e]))
| run_call ks s w :
    run_to s0 ks s -> run_to s0 ks (with_world s w)
| run_summary ks s l :
    run_to s0 ks s -> run_to s0 ks (with_summary s l)
| run_append ks s h mode_id clear timestamp s' :
    run_to s0 ks s ->
    append_log (make_entry h mode_id clear timestamp) s = (Ok tt, s') ->
    run_to s0 (ks ++ [str_key h mode_id]) s'.

(** The states of a run that has loaded the ledger file [file] *)
Definition loaded_run (file : option text) (s : state) : Prop :=
  exists s_init s0 ks,
    ledger s_init = file
    /\ load_log s_init = (Ok tt, s0)
    /\ run_to s0 ks s.

(** An entry that brings a tuple the key set [seen] does not hold *)
Definition fresh_entry (seen : keyset) (entry : pyval) : Prop :=
  exists k, entry_key entry = Ok k /\ k ∉ seen.

(** Every entry appended so far is fresh for [seen]. *)
Definition all_fresh (seen : keyset) (s : state) : Prop :=
  Forall (fresh_entry seen) (logged (trace s)).

(** What a run keeps from the moment the ledger is loaded: the
    derived set is [seen] and every entry appended is fresh for it. *)
Definition appends_fresh (seen : keyset) (s : state) : Prop :=
  already_cracked s = seen /\ all_fresh seen s.

(** Before the ledger is loaded: the file is [file] and nothing is
    appended yet. *)
Definition not_loaded (file : option text) (s : state) : Prop :=
  ledger s = file /\ logged (trace s) = [].

(** The key set that loading [file] gives *)
Definition loaded_keys (file : option text) : keyset :=
  (load_log_entries file).1.

(** A tool whose show call lists hashes of the subset only *)
Definition show_reports_subset : Prop :=
  forall mode subset wordlist w,
    reports_subset subset (hashcat_show mode subset wordlist w).1.

(** The codec gives back what was written. *)
Definition json_roundtrip : Prop :=
  forall v : pyval, json_load (json_dump v) = Some v.

End Notions.

(** ** Characters, and what the pattern of the enumeration accepts *)

(** Every character of [s] passes the test [P]. *)
Fixpoint all_chars (P : ascii -> bool) (s : string) : bool :=
  match s with
  | EmptyString => true
  | String c s' => P c && all_chars P s'
  end.

(** The number of characters of [s] that pass [P] *)
Fixpoint count_chars (P : ascii -> bool) (s : string) : nat :=
  match s with
  | EmptyString => 0
  | String c s' => (if P c then 1 else 0) + count_chars P s'
  end.

(** The strings of a list, one after the other *)
Definition flat (ts : list string) : string :=
  fold_right String.append EmptyString ts.

(** What one item of a pattern may take: characters of its class, as
    many as its quantifier allows. *)
Definition item_takes (it : Re.item) (t : string) : Prop :=
  all_chars (Re.cls it) t = true
  /\ match Re.quant it with
     | Re.Once => String.length t = 1
     | Re.Star => True
     | Re.Plus | Re.LazyPlus => t <> EmptyString
     end.

(** The captured ones among the strings the items took *)
Fixpoint captures (p : list Re.item) (ts : list string) : list string :=
  match p, ts with
  | it :: p', t :: ts' =>
      (if Re.captured it then [t] else []) ++ captures p' ts'
  | _, _ => []
  end.

Definition not_space (c : ascii) : bool := negb (PyStr.is_space c).

(** A line of the shape [<id> | <name> | <category>] that the pattern
    of [get_candidate_modes] describes, with its three groups *)
Definition mode_line (line g1 g2 g3 : string) : Prop :=
  exists ws0 ws1 ws2 ws3 ws4 tail,
    line = ws0 +:+ g1 +:+ ws1 +:+ "|" +:+ ws2 +:+ g2 +:+ ws3 +:+ "|"
           +:+ ws4 +:+ g3 +:+ tail
    /\ Forall (fun ws => all_chars PyStr.is_space ws = true)
         [ws0; ws1; ws2; ws3; ws4]
    /\ g1 <> "" /\ all_chars Re.digit g1 = true
    /\ g2 <> "" /\ all_chars Re.dot g2 = true
    /\ g3 <> "" /\ all_chars Re.dot g3 = true
    /\ Re.at_end tail = true.

(** The candidate that a line yields, if any: what one round of the
    loop of [get_candidate_modes] appends. *)
Definition mode_of_line (line : string) : option (string * string) :=
  match Re.match_line line with
  | Some [g1; g2; _] => Some (PyStr.strip g1, PyStr.strip g2)
  | _ => None
  end.

(** ** The hash file and the subset files *)

(** A character that ends no line of a text file *)
Definition not_eol (c : ascii) : bool :=
  negb (Ascii.eqb c PyStr.LF || Ascii.eqb c PyStr.CR).

(** The hash that one line of the hash file yields, if any: what one
    round of the loop of [get_all_hashes] appends. *)
Definition hash_of_line (line : string) : option string :=
  let h := PyStr.strip line in
  if (negb (PyStr.is_empty h) && negb (PyStr.startswith "#" h))%bool
  then Some h else None.

(** A string that [get_all_hashes] can return: not empty, no comment,
    no white space at either end, and within one line. *)
Definition clean_hash (h : string) : Prop :=
  h <> ""
  /\ PyStr.startswith "#" h = false
  /\ PyStr.strip h = h
  /\ all_chars not_eol h = true.

(** What [main] writes to the subset file: [tf.write(h + "\n")] for
    each pending hash. *)
Definition subset_text (pending : list string) : string :=
  flat (map (fun h => h +:+ String PyStr.LF EmptyString) pending).

(** ** The ledger during a run *)

Section LedgerNotions.
Context `{E : Env}.

(** What holds of the ledger once it is loaded from [file]: the
    derived set is the loaded one and every entry appended is a
    record; as long as nothing is appended the file and the loaded
    value are untouched; from the first append on, the loaded value
    was a list, the log entries are that list followed by the entries
    appended, oldest first, and the file is their dump. *)
Definition ledger_follows (file : option text) (s : state) : Prop :=
  already_cracked s = (load_log_entries file).1
  /\ Forall is_record (logged (trace s))
  /\ ((logged (trace s) = [] /\ ledger s = file
       /\ log_entries s = (load_log_entries file).2)
      \/ exists items,
           (load_log_entries file).2 = PyList items
           /\ log_entries s = PyList (items ++ logged (trace s))
           /\ ledger s = Some (json_dump (PyList (items ++ logged (trace s))))).

End LedgerNotions.

(** ** What the extraction reads as the lines of an output

    Said without [strip] and [splitlines]: the core of a text is what
    is left between its leading and its trailing white space, and the
    lines of a text are its maximal runs free of line boundaries. *)


Definition starts_with_space (s : string) : bool :=
  match s with
  | String c _ => PyStr.is_space c
  | EmptyString => false
  end.

Fixpoint ends_with_space (s : string) : bool :=
  match s with
  | EmptyString => false
  | String c EmptyString => PyStr.is_space c
  | String _ s' => ends_with_space s'
  end.




(** ** The exit status *)

(** The exit status of the process: [sys.exit(code)] ends it with
    [code], an exception that nothing catches with 1, and a [main]
    that returns with 0. *)
Definition exit_status (r : result unit) : Z :=
  match r with
  | Ok _ => 0
  | Raise (SystemExit code) => code
  | Raise _ => 1
  end.

Section ExitNotions.
Context `{E : Env}.



End ExitNotions.

(** ** The show calls of a run *)

Section RerunNotions.
Context `{E : Env}.

(** The show call that the round of [candidate] makes from the state
    [s], if it makes one: the subset it is given and what it prints.
    The round makes it when the pending list is not empty and the
    attack returns 0. *)
Definition show_call (all_hashes : list string) (wordlist : string)
    (candidate : string * string) (s : state) : option (list string * string) :=
  let pending := pending_hashes all_hashes candidate.1 (already_cracked s) in
  match pending with
  | [] => None
  | _ :: _ =>
      let (returncode, w) :=
        hashcat_attack candidate.1 pending wordlist (world s) in
      if (returncode =? 0)%Z
      then Some (pending, (hashcat_show candidate.1 pending wordlist w).1)
      else None
  end.

(** The show call of the round, if any, lists hashes of its subset
    only. *)
Definition round_reports (all_hashes : list string) (wordlist : string)
    (candidate : string * string) (s : state) : Prop :=
  match show_call all_hashes wordlist candidate s with
  | Some (subset, stdout) => reports_subset subset stdout
  | None => True
  end.

(** Every show call of the mode loop run from [s] does. *)
Fixpoint loop_reports (all_hashes : list string) (wordlist : string)
    (candidates : list (string * string)) (s : state) : Prop :=
  match candidates with
  | [] => True
  | candidate :: rest =>
      round_reports all_hashes wordlist candidate s
      /\ match attempt_mode all_hashes wordlist candidate s with
         | (Ok _, s') => loop_reports all_hashes wordlist rest s'
         | (Raise _, _) => True
         end
  end.

(** Every show call of the run of [main] from [s] does. *)
Definition run_reports (argv : list string) (files : string -> option string)
    (s : state) : Prop :=
  match prologue argv files s with
  | (Ok setup, s1) => loop_reports setup.1.2 setup.2 setup.1.1 s1
  | (Raise _, _) => True
  end.

(** A pair that the show call of the round yields *)
Definition shown_pair (all_hashes : list string) (wordlist : string)
    (candidate : string * string) (s : state) (h clear : string) : Prop :=
  match show_call all_hashes wordlist candidate s with
  | Some (_, stdout) =>
      exists pairs, pairs_of_stdout stdout = Ok pairs /\ (h, clear) ∈ pairs
  | None => False
  end.

(** An entry of the mode for a pair that satisfies [P] *)
Definition entry_of (P : string -> string -> Prop) (mode_id : string)
    (entry : pyval) : Prop :=
  exists h clear timestamp,
    entry = make_entry h mode_id clear timestamp /\ P h clear.

(** Since the state [s], entries for pairs that satisfy [P] were
    appended, and nothing else. *)
Definition appended_since (P : string -> string -> Prop) (mode_id : string)
    (s st : state) : Prop :=
  exists more,
    logged (trace st) = logged (trace s) ++ more
    /\ Forall (entry_of P mode_id) more.

End RerunNotions.

(** ** What a run does to the outside, read off its trace *)

Fixpoint count_events (P : event -> bool) (tr : list event) : nat :=
  match tr with
  | [] => 0
  | e :: tr' => (if P e then 1 else 0) + count_events P tr'
  end.

(** A temporary file is made, a temporary file is removed *)
Definition is_create (e : event) : bool :=
  match e with CreateSubsetFile _ | CreatePotFile => true | _ => false end.
Definition is_remove (e : event) : bool :=
  match e with RemovePotFile | RemoveSubsetFile => true | _ => false end.

(** The modes attacked and the subset files written, oldest first *)
Definition attacks (tr : list event) : list string :=
  omap (fun e => match e with Attack mode_id => Some mode_id | _ => None end) tr.
Definition subsets (tr : list event) : list (list string) :=
  omap (fun e => match e with CreateSubsetFile lines => Some lines | _ => None end) tr.

(** What happens between the attack of a round and its cleanup:
    messages, the show call and the appends *)
Definition is_inner (e : event) : bool :=
  match e with Print _ | Show _ | AppendLog _ => true | _ => false end.

(** What happens before the mode loop: messages and the enumeration *)
Definition is_startup (e : event) : bool :=
  match e with Print _ | Enumerate _ => true | _ => false end.

Definition is_print (e : event) : bool :=
  match e with Print _ => true | _ => false end.

(** The events of a round on a mode with pending hashes: the
    announcement, the two temporary files, the attack, what follows
    it, and the cleanup when the round runs to its end. *)
Definition round_events (candidate : string * string) (pending : list string)
    (inner : list event) (finished : bool) : list event :=
  [Print (MsgMode candidate.1 candidate.2); CreateSubsetFile pending;
   CreatePotFile; Attack candidate.1]
  ++ inner
  ++ (if finished then [RemovePotFile; RemoveSubsetFile] else []).

(** The modes that the loop attacks and the subset files it writes,
    given the derived set: those of the candidates with a pending
    hash, in order. *)
Definition attacked (seen : keyset) (all_hashes : list string)
    (candidates : list (string * string)) : list string :=
  omap (fun c : string * string =>
          match pending_hashes all_hashes c.1 seen with
          | [] => None
          | _ :: _ => Some c.1
          end) candidates.

Definition written (seen : keyset) (all_hashes : list string)
    (candidates : list (string * string)) : list (list string) :=
  omap (fun c : string * string =>
          match pending_hashes all_hashes c.1 seen with
          | [] => None
          | h :: rest => Some (h :: rest)
          end) candidates.

Section TraceNotions.
Context `{E : Env}.

(** Since the trace [base], events that pass [ok] were added, and
    nothing else; the derived set is still [seen]. *)
Definition added_since (ok : event -> bool) (seen : keyset) (base : list event)
    (st : state) : Prop :=
  already_cracked st = seen
  /\ exists more, trace st = base ++ more /\ Forall (fun e => ok e = true) more.

End TraceNotions.

(** ** The pattern, item by item *)

(** After the name, the rest of the pattern of [get_candidate_modes] *)
Definition after_name : list Re.item :=
  [ Re.Item PyStr.is_space Re.Star false;
    Re.Item Re.bar Re.Once false;
    Re.Item PyStr.is_space Re.Star false;
    Re.Item Re.dot Re.Plus true ].

(** A string at whose start a run of [accepts] characters ends *)
Definition stops_at (accepts : ascii -> bool) (rest : string) : Prop :=
  match rest with
  | String c _ => accepts c = false
  | EmptyString => True
  end.

(** ** Concrete worlds

    All of them use the parsed value itself as the text of the
    ledger.  The world is the number of candidate words the tool gets
    to try in an attack: with none it cracks nothing. *)

Module Demo.

Definition md5_password : string := "5f4dcc3b5aa765d61d8327deb882cf99".
Definition md5_123456 : string := "e10adc3949ba59abbe56e057f20f883e".
Definition stamp : string := "2026-01-01T00:00:00+00:00".
Definition nl : string := String PyStr.LF EmptyString.

(** What the enumeration prints *)
Definition md5_modes : string := "0 | MD5 | Raw Hash" +:+ nl.
Definition salted_modes : string :=
  "10 | md5($pass.$salt) | Raw Hash salted and/or iterated" +:+ nl.

Fixpoint lookup (table : list (string * string)) (h : string) : option string :=
  match table with
  | [] => None
  | (h', clear) :: rest => if String.eqb h' h then Some clear else lookup rest h
  end.

(** A tool that knows the cleartext of the hash lines of a table: the
    attack succeeds when the subset holds one of them, and the show
    call prints [<line>:<cleartext>] for each one it holds. *)
Definition shown (table : list (string * string)) (subset : list string) : string :=
  fold_right
    (fun h out =>
       match lookup table h with
       | Some clear => h +:+ ":" +:+ clear +:+ nl +:+ out
       | None => out
       end)
    "" subset.

Definition table_env (modes : string) (table : list (string * string)) : Env := {|
  text := pyval;
  json_load := fun t => Some t;
  json_dump := fun v => v;
  World := nat;
  hashcat_enumerate := fun _ w => (Some modes, w);
  hashcat_attack := fun _ subset _ w =>
    ((if (PyStr.is_empty (shown table subset) || (w =? 0)%nat)%bool
      then 1 else 0)%Z, w);
  hashcat_show := fun _ subset _ w => (shown table subset, w);
  utc_now := fun w => (stamp, w)
|}.

(** A tool that finds [password] with the first word it tries and
    [123456] with the second *)
Definition found (h clear : string) (tried : bool) (subset : list string) : string :=
  if (bool_decide (h ∈ subset) && tried)%bool
  then h +:+ ":" +:+ clear +:+ nl else "".

Definition md5_shown (subset : list string) (w : nat) : string :=
  found md5_password "password" (1 <=? w)%nat subset
  +:+ found md5_123456 "123456" (2 <=? w)%nat subset.

Definition single_env : Env := {|
  text := pyval;
  json_load := fun t => Some t;
  json_dump := fun v => v;
  World := nat;
  hashcat_enumerate := fun _ w => (Some md5_modes, w);
  hashcat_attack := fun _ subset _ w =>
    ((if PyStr.is_empty (md5_shown subset w) then 1 else 0)%Z, w);
  hashcat_show := fun _ subset _ w => (md5_shown subset w, w);
  utc_now := fun w => (stamp, w)
|}.

Definition argv : list string := ["autoCrack.py"; "hashes.txt"; "rockyou.txt"].

(** A corpus with one hash and a comment, and a wordlist *)
Definition files (corpus : string) (path : string) : option string :=
  if String.eqb path "hashes.txt" then Some corpus
  else if String.eqb path "rockyou.txt" then Some ("password" +:+ nl)
  else None.

Definition corpus_md5 : string :=
  md5_password +:+ nl +:+ "# not a hash" +:+ nl.

Definition corpus_both : string :=
  md5_password +:+ nl +:+ md5_123456 +:+ nl.

(** Two plain hash lines and one salted line *)
Definition table : list (string * string) :=
  [("aa11", "alpha"); ("bb22", "beta"); ("cc33:NaCl", "gamma")].

Definition corpus_two : string := "aa11" +:+ nl +:+ "bb22" +:+ nl.
Definition corpus_salted : string := "cc33:NaCl" +:+ nl.

Definition plain_env : Env := table_env md5_modes table.
Definition salted_env : Env := table_env salted_modes table.

(** The first run of the scenario of the spec: one MD5 hash and a
    comment line in the corpus, no ledger file. *)
Definition first_run : result unit * state :=
  main (E := single_env) argv (files corpus_md5)
    (boot (E := single_env) None 1%nat).

(** The second run of the scenario: the same corpus, on the ledger
    the first run left. *)
Definition second_run : result unit * state :=
  main (E := single_env) argv (files corpus_md5)
    (boot (E := single_env) (ledger first_run.2) (world first_run.2)).

(** A first run in which the tool tries one word, and a second one,
    on the ledger the first left, in which it tries two *)
Definition partial_run : result unit * state :=
  main (E := single_env) argv (files corpus_both)
    (boot (E := single_env) None 1%nat).

Definition resumed_run : result unit * state :=
  main (E := single_env) argv (files corpus_both)
    (boot (E := single_env) (ledger partial_run.2) 2%nat).

(** The two runs on a salted hash line *)
Definition salted_first : result unit * state :=
  main (E := salted_env) argv (files corpus_salted)
    (boot (E := salted_env) None 1%nat).

Definition salted_second : result unit * state :=
  main (E := salted_env) argv (files corpus_salted)
    (boot (E := salted_env) (ledger salted_first.2) (world salted_first.2)).

(** A first run on two plain hash lines with a tool that also knows
    a salted line *)
Definition plain_first : result unit * state :=
  main (E := plain_env) argv (files corpus_two)
    (boot (E := plain_env) None 1%nat).

End Demo.

(** * Properties *)

#[local] Set Warnings "-clear-no-such-hyp".

Lemma Ok_inj {A} (a b : A) : Ok a = Ok b -> a = b.
Proof. intros [= H]. exact H. Qed.

(** ** The model on small inputs *)

Example strip_ex :
  PyStr.strip ("  a b " +:+ Demo.nl) = "a b".
Proof. reflexivity. Qed.

Example splitlines_ex :
  PyStr.splitlines
    ("a" +:+ String PyStr.CR Demo.nl +:+ Demo.nl +:+ "b" +:+ Demo.nl)
  = ["a"; ""; "b"].
Proof. reflexivity. Qed.

Example splitlines_empty : PyStr.splitlines "" = [].
Proof. reflexivity. Qed.

Example split1_ex : PyStr.split1 PyStr.colon "a:b:c" = ["a"; "b:c"].
Proof. reflexivity. Qed.

Example pairs_of_stdout_ex :
  pairs_of_stdout ("h1:pw:x" +:+ Demo.nl +:+ "noise" +:+ Demo.nl +:+ "h2:" +:+ Demo.nl)
  = Ok [("h1", "pw:x"); ("h2", "")].
Proof. reflexivity. Qed.

Example match_line_ex :
  Re.match_line " 1400 | SHA2-256   | Raw Hash"
  = Some ["1400"; "SHA2-256"; "Raw Hash"].
Proof. reflexivity. Qed.

Example match_line_lazy : Re.match_line "1|a|b|c" = Some ["1"; "a"; "b|c"].
Proof. reflexivity. Qed.

Example match_line_banner : Re.match_line "hashcat (v6.2.6) starting" = None.
Proof. reflexivity. Qed.

Example hashes_of_text_ex :
  hashes_of_text Demo.corpus_md5 = [Demo.md5_password].
Proof. reflexivity. Qed.

Example modes_of_stdout_ex :
  modes_of_stdout
    ("The following 2 hash-modes match" +:+ Demo.nl
     +:+ "   1400 | SHA2-256 | Raw Hash" +:+ Demo.nl
     +:+ "  17400 | SHA3-256 | Raw Hash" +:+ Demo.nl)
  = [("1400", "SHA2-256"); ("17400", "SHA3-256")].
Proof. reflexivity. Qed.

(** ** Strings *)

Section StringFacts.

(** Where a string holds the separator, [split1] cuts it in two at
    the first one. *)
Lemma split1_cut (sep : ascii) (s : string) :
  PyStr.contains sep s = true ->
  exists a b, PyStr.split1 sep s = [a; b]
              /\ s = a +:+ String sep b
              /\ PyStr.contains sep a = false.
Proof.
  induction s as [|c s IH]; simpl; [discriminate|].
  destruct (Ascii.eqb c sep) eqn:Hc; simpl.
  - intros _. apply Ascii.eqb_eq in Hc. subst c.
    exists EmptyString, s. repeat split.
  - intros Hs. destruct (IH Hs) as (a & b & Hsplit & -> & Ha).
    rewrite Hsplit. exists (String c a), b. simpl. rewrite Hc, Ha.
    repeat split.
Qed.

(** The cut at the first separator is the only one whose left part
    is free of it. *)
Lemma first_cut_unique (sep : ascii) (a b a' b' : string) :
  a +:+ String sep b = a' +:+ String sep b' ->
  PyStr.contains sep a = false ->
  PyStr.contains sep a' = false ->
  a = a' /\ b = b'.
Proof.
  revert a'. induction a as [|c a IH]; intros [|c' a']; simpl.
  - intros [= ->]. auto.
  - intros [= <- _] _. rewrite Ascii.eqb_refl. discriminate.
  - intros [= -> _]. rewrite Ascii.eqb_refl. discriminate.
  - intros [= -> Heq] Ha Ha'.
    apply orb_false_elim in Ha as [_ Ha].
    apply orb_false_elim in Ha' as [_ Ha'].
    destruct (IH _ Heq Ha Ha') as [-> ->]. auto.
Qed.

Lemma collect_pairs_spec (lines : list string) (acc : list (string * string)) :
  exists more,
    collect_pairs lines acc = Ok (acc ++ more)
    /\ Forall2 cut_at_first_colon (filter has_colon lines) more.
Proof.
  revert acc. induction lines as [|line lines IH]; intros acc; simpl.
  - exists []. rewrite app_nil_r. split; [reflexivity | constructor].
  - destruct (PyStr.contains PyStr.colon line) eqn:Hc.
    + destruct (split1_cut _ _ Hc) as (a & b & -> & Hline & Ha). simpl.
      destruct (IH (acc ++ [(a, b)])) as (more & -> & Hall).
      exists ((a, b) :: more). rewrite <- app_assoc. split; [reflexivity|].
      rewrite filter_cons_True by exact Hc.
      constructor; [split; assumption | exact Hall].
    + destruct (IH acc) as (more & -> & Hall).
      exists more. split; [reflexivity|].
      rewrite filter_cons_False; [exact Hall|].
      unfold has_colon. rewrite Hc. discriminate.
Qed.

End StringFacts.

(** ** The pending list *)

Lemma snoc_loop_filter {A} (P : A -> Prop) `{!forall x, Decision (P x)}
    (l acc : list A) :
  fold_left (fun acc x => if bool_decide (P x) then acc ++ [x] else acc) l acc
  = acc ++ filter P l.
Proof.
  revert acc. induction l as [|x l IH]; intros acc; simpl.
  - rewrite app_nil_r. reflexivity.
  - rewrite IH. case_bool_decide.
    + rewrite filter_cons_True by assumption. rewrite <- app_assoc. reflexivity.
    + rewrite filter_cons_False by assumption. reflexivity.
Qed.

(** C1. The pending list of a mode is [all_hashes] filtered by "the
    tuple [(h, mode_id)] is not in the key set": a sublist of
    [all_hashes] in the same order, holding every occurrence of every
    hash whose tuple is absent and no other. *)
Theorem pending_hashes_exact (all_hashes : list string) (mode_id : string)
    (L : keyset) :
  pending_hashes all_hashes mode_id L
  = filter (fun h => str_key h mode_id ∉ L) all_hashes
  /\ pending_hashes all_hashes mode_id L `sublist_of` all_hashes
  /\ forall h, h ∈ pending_hashes all_hashes mode_id L
               <-> h ∈ all_hashes /\ str_key h mode_id ∉ L.
Proof.
  assert (Heq : pending_hashes all_hashes mode_id L
                = filter (fun h => str_key h mode_id ∉ L) all_hashes).
  { unfold pending_hashes.
    exact (snoc_loop_filter (fun h => str_key h mode_id ∉ L) all_hashes []). }
  rewrite Heq. split; [reflexivity|]. split.
  - apply sublist_filter.
  - intros h. rewrite list_elem_of_filter. tauto.
Qed.

(** ** Reasoning about statements *)

Section Logic.
Context `{E : Env}.

Lemma triple_ret {A} (a : A) (P : state -> Prop) Q X :
  (forall s, P s -> Q a s) -> triple P (mret a) Q X.
Proof. intros H s Hs. apply H, Hs. Qed.

Lemma triple_raise {A} (e : exn) (P : state -> Prop)
    (Q : A -> state -> Prop) X :
  (forall s, P s -> X e s) -> triple P (raise e) Q X.
Proof. intros H s Hs. apply H, Hs. Qed.

Lemma triple_bind {A B} (m : M A) (f : A -> M B) P R Q X :
  triple P m R X ->
  (forall a, triple (R a) (f a) Q X) ->
  triple P (m ≫= f) Q X.
Proof.
  intros Hm Hf s Hs. specialize (Hm s Hs).
  unfold mbind, M_bind. destruct (m s) as [[a|e] s1].
  - apply Hf, Hm.
  - exact Hm.
Qed.

Lemma triple_weaken {A} (m : M A) (P P' : state -> Prop)
    (Q Q' : A -> state -> Prop) (X X' : exn -> state -> Prop) :
  triple P' m Q' X' ->
  (forall s, P s -> P' s) ->
  (forall a s, Q' a s -> Q a s) ->
  (forall e s, X' e s -> X e s) ->
  triple P m Q X.
Proof.
  intros Hm HP HQ HX s Hs. specialize (Hm s (HP s Hs)).
  destruct (m s) as [[a|e] s1]; auto.
Qed.

Lemma triple_pure {A} (m : M A) (P : state -> Prop) (F : Prop) Q X :
  (F -> triple P m Q X) -> triple (fun s => P s /\ F) m Q X.
Proof. intros H s [Hs HF]. exact (H HF s Hs). Qed.

(** A loop keeps what each of its rounds keeps. *)
Lemma triple_for_each {A} (body : A -> M unit) (l : list A)
    (I : state -> Prop) X :
  (forall x, x ∈ l -> triple I (body x) (fun _ => I) X) ->
  triple I (for_each body l) (fun _ => I) X.
Proof.
  intros Hbody. induction l as [|x l IH].
  - apply triple_ret. auto.
  - simpl. eapply triple_bind.
    + apply Hbody. left.
    + intros u. apply IH. intros y Hy. apply Hbody. right. exact Hy.
Qed.

End Logic.

Section Extraction.
Context `{E : Env}.

(** Nothing that the show call prints makes the extraction raise. *)
Lemma extract_cracked_from_pot_run (mode : string) (subset : list string)
    (wordlist : string) (s : state) :
  exists pairs,
    pairs_of_stdout (hashcat_show mode subset wordlist (world s)).1 = Ok pairs
    /\ extract_cracked_from_pot mode subset wordlist s
       = (Ok pairs,
          State (already_cracked s) (log_entries s) (cracked_summary s)
                (ledger s) (hashcat_show mode subset wordlist (world s)).2
                (trace s ++ [Show mode])).
Proof.
  unfold pairs_of_stdout.
  destruct (collect_pairs_spec
              (PyStr.splitlines
                 (PyStr.strip (hashcat_show mode subset wordlist (world s)).1)) [])
    as (pairs & Hrun & _).
  exists pairs. split; [exact Hrun|].
  unfold extract_cracked_from_pot, mbind, M_bind, emit, call, pairs_of_stdout.
  simpl. destruct (hashcat_show mode subset wordlist (world s)) as [out w].
  simpl in *. rewrite Hrun. reflexivity.
Qed.

Lemma pairs_within_subset (subset : list string) (stdout : string)
    (pairs : list (string * string)) :
  reports_subset subset stdout ->
  pairs_of_stdout stdout = Ok pairs ->
  Forall (fun p => p.1 ∈ subset) pairs.
Proof.
  unfold reports_subset, pairs_of_stdout. intros Hsub Hrun.
  destruct (collect_pairs_spec (PyStr.splitlines (PyStr.strip stdout)) [])
    as (more & Hmore & Hcut).
  rewrite Hmore in Hrun. injection Hrun as <-.
  assert (Hlines : Forall (fun line => exists h clear,
              cut_at_first_colon line (h, clear) /\ h ∈ subset)
            (filter has_colon (PyStr.splitlines (PyStr.strip stdout)))).
  { apply Forall_forall. intros line Hin.
    apply list_elem_of_filter in Hin as [Hcolon Hin].
    rewrite Forall_forall in Hsub. exact (Hsub line Hin Hcolon). }
  clear Hsub Hmore.
  induction Hcut as [|line p lines ps Hp _ IH]; [constructor|].
  apply Forall_cons in Hlines as [(h & clear & [Hl Hh] & Hin) Hrest].
  constructor; [|exact (IH Hrest)].
  destruct Hp as [Hl' Hp]. simpl in *. rewrite Hl in Hl'.
  destruct (first_cut_unique _ _ _ _ _ Hl' Hh Hp) as [<- _]. exact Hin.
Qed.

(** C3 (amended). The extraction does not check its pairs against
    the pending list: it returns what the show call printed.  When
    every line with a colon that the show call prints is
    [h:cleartext] for a colon-free [h] of the pending list, every
    pair returned has its hash in the pending list. *)
Theorem extraction_within_pending (mode : string) (pending : list string)
    (wordlist : string) (s : state) :
  reports_subset pending (hashcat_show mode pending wordlist (world s)).1 ->
  exists pairs s',
    extract_cracked_from_pot mode pending wordlist s = (Ok pairs, s')
    /\ Forall (fun p => p.1 ∈ pending) pairs.
Proof.
  intros Hsub.
  destruct (extract_cracked_from_pot_run mode pending wordlist s)
    as (pairs & Hpairs & Hrun).
  eexists pairs, _. split; [exact Hrun|].
  eapply pairs_within_subset; eassumption.
Qed.

End Extraction.

(** ** One round of the mode loop *)

Section Rounds.
Context `{E : Env}.

(** C9. A mode whose pending list is empty only prints the skip
    message: no subset file and no potfile is made, [hashcat] is not
    called, the log entries and the ledger file stay as they are, the
    message is not the one of an attempt that found nothing, and the
    loop goes on with the next mode. *)
Theorem empty_pending_skips (all_hashes : list string) (wordlist : string)
    (mode_id mode_name : string) (s : state) :
  pending_hashes all_hashes mode_id (already_cracked s) = [] ->
  let s' := State (already_cracked s) (log_entries s) (cracked_summary s)
                  (ledger s) (world s)
                  (trace s ++ [Print (MsgSkipped mode_id mode_name)]) in
  attempt_mode all_hashes wordlist (mode_id, mode_name) s = (Ok tt, s')
  /\ MsgSkipped mode_id mode_name <> MsgNotFound
  /\ forall rest,
       mode_loop all_hashes wordlist ((mode_id, mode_name) :: rest) s
       = mode_loop all_hashes wordlist rest s'.
Proof.
  intros Hpending s'.
  assert (Hskip : attempt_mode all_hashes wordlist (mode_id, mode_name) s
                  = (Ok tt, s')).
  { unfold attempt_mode, mbind, M_bind, get. simpl. rewrite Hpending.
    reflexivity. }
  split; [exact Hskip|]. split; [discriminate|].
  intros rest. unfold mode_loop. simpl. unfold mbind at 1, M_bind at 1.
  rewrite Hskip. reflexivity.
Qed.

End Rounds.

(** ** What the rounds of the loop keep *)

Section Keeping.
Context `{E : Env}.
Variable I : state -> Prop.
Variable X : exn -> state -> Prop.
Hypothesis I_stable : stable I.

Lemma emit_keeps (e : event) :
  is_append e = false -> triple I (emit e) (fun _ => I) X.
Proof. intros He s Hs. exact (stable_emit I I_stable s e He Hs). Qed.

Lemma print_keeps (m : message) : triple I (print m) (fun _ => I) X.
Proof. apply emit_keeps. reflexivity. Qed.

Lemma call_keeps {A} (f : World -> A * World) : triple I (call f) (fun _ => I) X.
Proof.
  intros s Hs. unfold call. destruct (f (world s)) as [a w].
  exact (stable_world I I_stable s w Hs).
Qed.

Lemma summary_append_keeps (r : summary_record) :
  triple I (summary_append r) (fun _ => I) X.
Proof. intros s Hs. exact (stable_summary I I_stable s _ Hs). Qed.

Lemma clear_summary_keeps : triple I clear_summary (fun _ => I) X.
Proof. intros s Hs. exact (stable_summary I I_stable s [] Hs). Qed.

Lemma triple_get_bind {A} (f : state -> M A) (Q : A -> state -> Prop) :
  (forall s0, I s0 -> triple (fun s => s = s0) (f s0) Q X) ->
  triple I (get ≫= f) Q X.
Proof.
  intros H s Hs. unfold mbind, M_bind, get. exact (H s Hs s eq_refl).
Qed.

(** The pairs that the extraction returns are those parsed from the
    output of a show call on the same mode and subset. *)
Lemma extract_keeps (mode : string) (subset : list string) (wordlist : string) :
  triple I (extract_cracked_from_pot mode subset wordlist)
    (fun pairs s =>
       I s /\ exists w,
         pairs_of_stdout (hashcat_show mode subset wordlist w).1 = Ok pairs)
    X.
Proof.
  intros s Hs.
  destruct (extract_cracked_from_pot_run mode subset wordlist s)
    as (pairs & Hpairs & ->).
  split; [|eauto].
  apply (stable_world I I_stable (with_trace s (trace s ++ [Show mode]))).
  apply (stable_emit I I_stable s (Show mode)); [reflexivity | exact Hs].
Qed.

Lemma run_hashcat_keeps (mode : string) (subset : list string) (wordlist : string) :
  triple I (run_hashcat_with_pot mode subset wordlist) (fun _ => I) X.
Proof.
  unfold run_hashcat_with_pot.
  eapply triple_bind; [apply emit_keeps; reflexivity|]. intros ?.
  eapply triple_bind; [apply call_keeps|]. intros rc.
  apply triple_ret. auto.
Qed.

(** Where each entry that a round appends keeps [I], the round
    does.  [G] is what is known of the hashes of the entries: it holds
    of every hash that a show call on the pending list can yield. *)
Section Round.
Variable seen : keyset.
Variable all_hashes : list string.
Variable wordlist : string.
Variable candidate : string * string.
Variable G : string -> Prop.
Hypothesis I_seen : forall s, I s -> already_cracked s = seen.
Hypothesis append_keeps : forall h clear timestamp,
  G h ->
  triple I (append_log (make_entry h candidate.1 clear timestamp))
    (fun _ => I) X.
Hypothesis show_yields : forall w pairs,
  pairs_of_stdout
    (hashcat_show candidate.1
       (pending_hashes all_hashes candidate.1 seen) wordlist w).1 = Ok pairs ->
  Forall (fun p => G p.1) pairs.

Lemma log_pair_keeps (pairs : list (string * string)) (p : string * string) :
  G p.1 ->
  triple I (log_pair candidate.1 candidate.2 pairs p) (fun _ => I) X.
Proof.
  intros Hp. unfold log_pair.
  eapply triple_bind; [apply print_keeps|]. intros ?.
  eapply triple_bind; [apply call_keeps|]. intros ts.
  eapply triple_bind; [apply append_keeps, Hp|]. intros ?.
  apply summary_append_keeps.
Qed.

Lemma attempt_mode_keeps :
  triple I (attempt_mode all_hashes wordlist candidate) (fun _ => I) X.
Proof.
  unfold attempt_mode. apply triple_get_bind. intros s0 Hs0. simpl.
  rewrite (I_seen s0 Hs0).
  eapply triple_weaken with (P' := I) (Q' := fun _ => I) (X' := X);
    [|intros s ->; exact Hs0|auto..].
  remember (pending_hashes all_hashes candidate.1 seen) as pending eqn:Hpend in |- *.
  destruct pending as [|h0 rest].
  { apply print_keeps. }
  rewrite Hpend. clear h0 rest Hpend.
  eapply triple_bind; [apply print_keeps|]. intros ?.
  eapply triple_bind; [apply emit_keeps; reflexivity|]. intros ?.
  eapply triple_bind; [apply emit_keeps; reflexivity|]. intros ?.
  eapply triple_bind; [apply run_hashcat_keeps|]. intros cracked.
  eapply triple_bind with (R := fun _ => I).
  { destruct cracked.
    - eapply triple_bind; [apply extract_keeps|]. intros pairs.
      eapply triple_bind with (R := fun _ s => I s /\ Forall (fun p => G p.1) pairs).
      { intros s [Hs [w Hw]]. split; [|exact (show_yields w pairs Hw)].
        exact (stable_emit I I_stable s (Print MsgFound) eq_refl Hs). }
      intros ?.
      apply triple_pure. intros Hall.
      apply triple_for_each. intros p Hp.
      apply log_pair_keeps. rewrite Forall_forall in Hall. auto.
    - apply print_keeps. }
  intros ?.
  eapply triple_bind; [apply emit_keeps; reflexivity|]. intros ?.
  apply emit_keeps. reflexivity.
Qed.
End Round.

End Keeping.

(** ** The entries appended so far *)

Section Logged.
Context `{E : Env}.

Lemma logged_snoc (tr : list event) (e : event) :
  logged (tr ++ [e])
  = logged tr ++ match e with AppendLog entry => [entry] | _ => [] end.
Proof.
  unfold logged. rewrite omap_app. f_equal. destruct e; reflexivity.
Qed.

Lemma not_loaded_stable (file : option text) : stable (not_loaded file).
Proof.
  split.
  - intros s e He [Hfile Hlog]. split; [exact Hfile|]. simpl.
    rewrite logged_snoc, Hlog. destruct e; try discriminate; reflexivity.
  - intros s w H. exact H.
  - intros s l H. exact H.
Qed.

End Logged.

(** ** What a whole run keeps *)

(** [J] holds until the ledger is loaded and [I] from then on; a run
    that is left by an exception leaves [X]. *)
Section WholeRun.
Context `{E : Env}.
Variables J I : state -> Prop.
Variable X : exn -> state -> Prop.
Hypothesis J_stable : stable J.
Hypothesis I_stable : stable I.
Hypothesis J_X : forall e s, J s -> X e s.
Hypothesis I_X : forall e s, I s -> X e s.
Hypothesis loading : triple J load_log (fun _ => I) X.
Hypothesis rounds : forall all_hashes wordlist candidate,
  triple I (attempt_mode all_hashes wordlist candidate) (fun _ => I) X.

Lemma exit_before_loading {A} (m : message) (code : Z) :
  triple J (print m ;; sys_exit code) (fun _ : A => J) X.
Proof.
  eapply triple_bind; [apply print_keeps, J_stable|]. intros ?.
  apply triple_raise. intros s. apply J_X.
Qed.

Lemma exit_after_loading {A} (m : message) (code : Z) :
  triple I (print m ;; sys_exit code) (fun _ : A => I) X.
Proof.
  eapply triple_bind; [apply print_keeps, I_stable|]. intros ?.
  apply triple_raise. intros s. apply I_X.
Qed.

Lemma validate_args_keeps argv files :
  triple J (validate_args argv files) (fun _ => J) X.
Proof.
  unfold validate_args.
  destruct argv as [|a0 [|hf [|wl [|x rest]]]];
    try apply exit_before_loading.
  destruct (bad_file files hf); [apply exit_before_loading|].
  destruct (bad_file files wl); [apply exit_before_loading|].
  apply triple_ret. auto.
Qed.

Lemma get_candidate_modes_keeps hash_file :
  triple I (get_candidate_modes hash_file) (fun _ => I) X.
Proof.
  unfold get_candidate_modes.
  eapply triple_bind; [apply emit_keeps; [exact I_stable | reflexivity]|].
  intros ?.
  eapply triple_bind; [apply call_keeps, I_stable|]. intros [stdout|].
  - apply triple_ret. auto.
  - apply exit_after_loading.
Qed.

Lemma prologue_keeps argv files :
  triple J (prologue argv files) (fun _ => I) X.
Proof.
  unfold prologue.
  eapply triple_bind; [apply validate_args_keeps|]. intros args.
  eapply triple_bind; [apply loading|]. intros ?.
  eapply triple_bind; [apply print_keeps, I_stable|]. intros ?.
  eapply triple_bind; [apply get_candidate_modes_keeps|].
  intros [|c candidates]; [apply exit_after_loading|].
  eapply triple_bind with (R := fun _ => I).
  { unfold get_all_hashes. destruct (files args.1).
    - apply triple_ret. auto.
    - apply triple_raise. intros s. apply I_X. }
  intros all_hashes.
  eapply triple_bind; [apply print_keeps, I_stable|]. intros ?.
  eapply triple_bind; [apply clear_summary_keeps, I_stable|]. intros ?.
  eapply triple_bind; [apply print_keeps, I_stable|]. intros ?.
  apply triple_ret. auto.
Qed.

Lemma epilogue_keeps : triple I epilogue (fun _ => I) X.
Proof.
  unfold epilogue.
  eapply triple_bind; [apply print_keeps, I_stable|]. intros ?.
  apply triple_get_bind. intros s0 Hs0.
  eapply triple_weaken with (P' := I) (Q' := fun _ => I) (X' := X);
    [|intros s ->; exact Hs0|auto..].
  destruct (cracked_summary s0) as [|r rs]; [apply exit_after_loading|].
  eapply triple_bind with (R := fun _ => I);
    [|intros ?; apply exit_after_loading].
  apply triple_for_each. intros record _. unfold print_record.
  eapply triple_bind; [apply print_keeps, I_stable|]. intros ?.
  apply triple_for_each. intros p _. apply print_keeps, I_stable.
Qed.

Lemma main_keeps argv files :
  triple J (main argv files) (fun _ => I) X.
Proof.
  unfold main.
  eapply triple_bind; [apply prologue_keeps|]. intros setup.
  eapply triple_bind with (R := fun _ => I); [|intros ?; apply epilogue_keeps].
  apply triple_for_each. intros c _. apply rounds.
Qed.

End WholeRun.

(** ** How a run ends *)

Section Ending.
Context `{E : Env}.

Lemma anywhere_stable (P : Prop) : P -> stable (fun _ => P).
Proof. intros HP. split; auto. Qed.

Lemma seen_stable (seen : keyset) : stable (fun s => already_cracked s = seen).
Proof. split; auto. Qed.

(** The loop raises nothing but the [AttributeError] of an
    [append_log] on something that is not a list. *)
Lemma mode_loop_raises all_hashes wordlist candidates (s : state) e s' :
  mode_loop all_hashes wordlist candidates s = (Raise e, s') ->
  e = AttributeError.
Proof.
  intros Hrun.
  assert (H : triple (fun s' => already_cracked s' = already_cracked s)
                (mode_loop all_hashes wordlist candidates)
                (fun _ s' => already_cracked s' = already_cracked s)
                (fun e _ => e = AttributeError)).
  { apply triple_for_each. intros c _.
    apply attempt_mode_keeps
      with (seen := already_cracked s) (G := fun _ => True).
    - apply seen_stable.
    - auto.
    - intros h clear ts _ s1 Hs1. unfold append_log.
      destruct (log_entries s1); simpl; auto.
    - intros w pairs _. apply Forall_forall. auto. }
  specialize (H s eq_refl). rewrite Hrun in H. exact H.
Qed.

Lemma print_record_runs record (s : state) :
  exists s', print_record record s = (Ok tt, s').
Proof.
  assert (H : triple (fun _ => True) (print_record record)
                (fun _ _ => True) (fun _ _ => False)).
  { unfold print_record.
    eapply triple_bind; [apply print_keeps, anywhere_stable, I|]. intros ?.
    apply triple_for_each. intros p _.
    apply print_keeps, anywhere_stable, I. }
  specialize (H s I). destruct (print_record record s) as [[[]|e] s'].
  - eauto.
  - contradiction.
Qed.

(** The summary always ends in [sys.exit(0)]. *)
Lemma epilogue_exits (s : state) : (epilogue s).1 = Raise (SystemExit 0).
Proof.
  assert (Hloop : forall l s1, exists s2, for_each print_record l s1 = (Ok tt, s2)).
  { induction l as [|r l IH]; intros s1; simpl.
    - eexists. reflexivity.
    - unfold mbind, M_bind. destruct (print_record_runs r s1) as [s2 ->].
      apply IH. }
  unfold epilogue, mbind, M_bind, print, emit, get, sys_exit, raise. simpl.
  destruct (cracked_summary s) as [|r l]; [reflexivity|].
  match goal with |- context [for_each print_record ?l ?s1] =>
    destruct (Hloop l s1) as [s2 ->] end.
  reflexivity.
Qed.


End Ending.

(** ** The key set of a list of entries *)

Section KeySets.

Lemma collect_keys_acc (entries : list pyval) (acc : keyset) :
  collect_keys entries acc = (K ← collect_keys entries ∅; Ok (K ∪ acc)).
Proof.
  revert acc. induction entries as [|e entries IH]; intros acc; simpl.
  - f_equal. set_solver.
  - destruct (entry_key e) as [k|err]; simpl; [|reflexivity].
    rewrite (IH ({[k]} ∪ acc)), (IH ({[k]} ∪ ∅)).
    destruct (collect_keys entries ∅) as [K|err]; simpl; [|reflexivity].
    f_equal. set_solver.
Qed.

Lemma collect_keys_app (l1 l2 : list pyval) (acc : keyset) :
  collect_keys (l1 ++ l2) acc = (K ← collect_keys l1 acc; collect_keys l2 K).
Proof.
  revert acc. induction l1 as [|e l1 IH]; intros acc; simpl; [reflexivity|].
  destruct (entry_key e) as [k|err]; simpl; [apply IH | reflexivity].
Qed.

(** Appending an entry built in [main] adds its tuple to the key set. *)
Lemma key_set_snoc (items : list pyval) (K : keyset)
    (h mode_id clear timestamp : string) :
  key_set (PyList items) = Ok K ->
  key_set (PyList (items ++ [make_entry h mode_id clear timestamp]))
  = Ok (K ∪ {[ str_key h mode_id ]}).
Proof.
  unfold key_set. simpl. intros HK.
  rewrite collect_keys_app, HK. simpl.
  f_equal. set_solver.
Qed.

Lemma key_set_entries (entries : list log_entry) :
  key_set (PyList (map entry_dict entries))
  = Ok (list_to_set (map entry_tuple entries)).
Proof.
  unfold key_set. simpl.
  induction entries as [|e entries IH]; simpl; [reflexivity|].
  rewrite collect_keys_acc, IH. simpl. f_equal.
  unfold entry_tuple at 2. set_solver.
Qed.

End KeySets.

(** ** What the loader falls back on *)

Section Loading.
Context `{E : Env}.

Lemma collect_keys_records (items : list pyval) (acc : keyset) :
  Forall is_record items -> exists K, collect_keys items acc = Ok K.
Proof.
  intros Hall. revert acc.
  induction Hall as [|e items [k Hk] _ IH]; intros acc; simpl.
  - eauto.
  - rewrite Hk. simpl. apply IH.
Qed.

Lemma collect_keys_raises (items : list pyval) (acc : keyset) :
  ~ Forall is_record items -> exists e, collect_keys items acc = Raise e.
Proof.
  revert acc. induction items as [|x items IH]; intros acc Hnot.
  - destruct Hnot. constructor.
  - simpl. destruct (entry_key x) as [k|e] eqn:Hx; simpl; [|eauto].
    apply IH. intros Hall. apply Hnot. constructor; [|exact Hall].
    exists k. exact Hx.
Qed.

(** Building the key set raises on everything that is not a list of
    records, except on the empty dict and the empty string: iterating
    over them yields nothing, so nothing is looked at. *)
Lemma key_set_raises (data : pyval) :
  ~ record_list data ->
  data <> PyDict [] ->
  data <> PyStr "" ->
  exists e, key_set data = Raise e.
Proof.
  intros Hnot Hdict Hstr. unfold key_set.
  destruct data as [| b | z | str | items | fields]; simpl; eauto.
  - destruct str as [|c str]; [congruence|]. simpl. eauto.
  - apply collect_keys_raises. intros Hall. apply Hnot. exists items. auto.
  - destruct fields as [|[k v] fields]; [congruence|]. simpl. eauto.
Qed.

(** X9. The fallback of the loader: no file, a text that [json.load]
    rejects, or a value that is neither a list of records nor one of the
    two empty values above. *)
Lemma load_log_entries_fallback (file : option text) :
  (file = None
   \/ exists t, file = Some t
        /\ (json_load t = None
            \/ exists data, json_load t = Some data
                 /\ ~ record_list data
                 /\ data <> PyDict [] /\ data <> PyStr "")) ->
  load_log_entries file = (∅, PyList []).
Proof.
  intros [-> | (t & -> & [Hload | (data & Hload & Hnot & Hdict & Hstr)])];
    unfold load_log_entries; [reflexivity | rewrite Hload; reflexivity |].
  rewrite Hload. destruct (key_set_raises data Hnot Hdict Hstr) as [e ->].
  reflexivity.
Qed.

(** The two contents the fallback misses: the loader hands back the
    value itself as the list of entries. *)
Lemma load_log_entries_empty_value (t : text) (data : pyval) :
  json_load t = Some data ->
  data = PyDict [] \/ data = PyStr "" ->
  load_log_entries (Some t) = (∅, data).
Proof.
  intros Hload [-> | ->]; unfold load_log_entries; rewrite Hload; reflexivity.
Qed.

(** [append_log] on anything but a list raises and changes nothing. *)
Lemma append_log_not_list (entry : pyval) (s : state) :
  (forall items, log_entries s <> PyList items) ->
  append_log entry s = (Raise AttributeError, s).
Proof.
  intros Hnot. unfold append_log.
  destruct (log_entries s) as [| | | |items|]; try reflexivity.
  destruct (Hnot items). reflexivity.
Qed.

(** X10. Where the loop over the pairs runs to its end, it has appended to
    the summary one record of the mode for each pair. *)
Lemma log_pairs_summary mode_id mode_name (pairs l : list (string * string))
    (s s' : state) :
  for_each (log_pair mode_id mode_name pairs) l s = (Ok tt, s') ->
  cracked_summary s'
  = cracked_summary s ++ replicate (length l) (mode_id, mode_name, pairs).
Proof.
  revert s. induction l as [|p l IH]; intros s; simpl.
  - intros [= <-]. rewrite app_nil_r. reflexivity.
  - unfold mbind at 1, M_bind at 1.
    destruct (log_pair mode_id mode_name pairs p s) as [[[]|e] s1] eqn:Hp;
      [|discriminate].
    intros Hrest. rewrite (IH _ Hrest).
    assert (H1 : cracked_summary s1
                 = cracked_summary s ++ [(mode_id, mode_name, pairs)]).
    { revert Hp. unfold log_pair, mbind, M_bind, print, emit, call, summary_append.
      simpl. destruct (utc_now (world s)) as [ts w]. unfold append_log. simpl.
      destruct (log_entries s); try discriminate.
      intros [= <-]. reflexivity. }
    rewrite H1, <- app_assoc. reflexivity.
Qed.

End Loading.

(** ** The derived set during a run *)

Section DerivedSet.
Context `{E : Env}.

(** What the loader returns is consistent: the set is the key set of
    the list. *)
Lemma load_log_entries_consistent (file : option text) :
  key_set (load_log_entries file).2 = Ok (load_log_entries file).1.
Proof.
  unfold load_log_entries.
  destruct file as [t|]; [|reflexivity].
  destruct (json_load t) as [data|]; [|reflexivity].
  destruct (key_set data) as [seen|e] eqn:Hkeys; [exact Hkeys | reflexivity].
Qed.

Lemma append_log_ok (entry : pyval) (s s' : state) :
  append_log entry s = (Ok tt, s') ->
  exists items,
    log_entries s = PyList items
    /\ s' = State (already_cracked s) (PyList (items ++ [entry]))
                  (cracked_summary s)
                  (Some (json_dump (PyList (items ++ [entry]))))
                  (world s) (trace s ++ [AppendLog entry]).
Proof.
  unfold append_log. destruct (log_entries s) as [| | | |items|];
    try discriminate.
  intros [= <-]. eauto.
Qed.

Lemma run_to_invariant (s0 : state) (seen : keyset) (ks : list key) (s : state) :
  already_cracked s0 = seen ->
  key_set (log_entries s0) = Ok seen ->
  run_to s0 ks s ->
  already_cracked s = seen
  /\ key_set (log_entries s) = Ok (seen ∪ list_to_set ks).
Proof.
  intros Hseen Hkeys Hrun.
  induction Hrun as [|ks s e _ IH _|ks s w _ IH|ks s l _ IH
                     |ks s h m c t s' _ IH Happ]; simpl.
  - split; [exact Hseen|]. rewrite Hkeys. f_equal. set_solver.
  - exact IH.
  - exact IH.
  - exact IH.
  - destruct IH as [IHseen IHkeys].
    destruct (append_log_ok _ _ _ Happ) as (items & Hitems & ->). simpl.
    split; [exact IHseen|].
    rewrite Hitems in IHkeys.
    rewrite (key_set_snoc _ _ _ _ _ _ IHkeys). f_equal.
    rewrite list_to_set_app_L. set_solver.
Qed.

(** C2 (amended). Once the ledger is loaded, the derived set stays
    what the loader returned: no call of [append_log] updates it.  At
    every point of the run the key set of the log entries is the
    derived set together with the tuples of the entries appended so
    far, so the derived set is contained in it. *)
Theorem derived_set_is_startup_snapshot (s_init s0 : state)
    (ks : list key) (s : state) :
  load_log s_init = (Ok tt, s0) ->
  run_to s0 ks s ->
  already_cracked s = (load_log_entries (ledger s_init)).1
  /\ key_set (log_entries s) = Ok (already_cracked s ∪ list_to_set ks).
Proof.
  unfold load_log. intros Hload Hrun.
  pose proof (load_log_entries_consistent (ledger s_init)) as Hcons.
  destruct (load_log_entries (ledger s_init)) as [seen data].
  injection Hload as <-. simpl in *.
  eapply run_to_invariant in Hrun; [|reflexivity | exact Hcons].
  destruct Hrun as [-> Hkeys]. split; [reflexivity | exact Hkeys].
Qed.

(** Once an entry is appended, the ledger file is the dump of the log
    entries; until then it is the file the run started with. *)
Lemma run_to_ledger (s0 : state) (ks : list key) (s : state) :
  run_to s0 ks s ->
  (ks = [] /\ ledger s = ledger s0 /\ log_entries s = log_entries s0)
  \/ ledger s = Some (json_dump (log_entries s)).
Proof.
  intros Hrun.
  induction Hrun as [|ks s e _ IH _|ks s w _ IH|ks s l _ IH
                     |ks s h m c t s' _ IH Happ]; simpl; auto.
  destruct (append_log_ok _ _ _ Happ) as (items & _ & ->). simpl. auto.
Qed.

(** With a codec that gives back what it wrote, loading the ledger
    file at any point of a run gives the key set of the log entries
    at that point: a later run starts from all the tuples logged. *)
Lemma reload_sees_the_log (s_init s0 : state) (ks : list key) (s : state) :
  json_roundtrip ->
  load_log s_init = (Ok tt, s0) ->
  run_to s0 ks s ->
  key_set (log_entries s) = Ok (load_log_entries (ledger s)).1.
Proof.
  intros Hrt Hload Hrun.
  pose proof (load_log_entries_consistent (ledger s_init)) as Hcons.
  unfold load_log in Hload.
  destruct (load_log_entries (ledger s_init)) as [seen data] eqn:Hl.
  injection Hload as <-. simpl in Hcons.
  pose proof Hrun as Hinv.
  eapply run_to_invariant in Hinv; [|reflexivity | exact Hcons].
  destruct Hinv as [_ Hkeys].
  destruct (run_to_ledger _ ks s Hrun) as [(-> & Hfile & Hlog) | Hfile].
  - simpl in Hfile, Hlog. rewrite Hfile, Hlog, Hl. exact Hcons.
  - rewrite Hfile. unfold load_log_entries. rewrite Hrt, Hkeys. reflexivity.
Qed.

Lemma load_log_result (s_init s0 : state) :
  load_log s_init = (Ok tt, s0) ->
  already_cracked s0 = loaded_keys (ledger s_init)
  /\ key_set (log_entries s0) = Ok (already_cracked s0).
Proof.
  unfold load_log, loaded_keys.
  pose proof (load_log_entries_consistent (ledger s_init)) as Hcons.
  destruct (load_log_entries (ledger s_init)) as [seen data].
  intros [= <-]. simpl. auto.
Qed.

Lemma loaded_run_stable (file : option text) : stable (loaded_run file).
Proof.
  split.
  - intros s e He (s_init & s0 & ks & Hfile & Hload & Hrun).
    exists s_init, s0, ks. auto using run_emit.
  - intros s w (s_init & s0 & ks & Hfile & Hload & Hrun).
    exists s_init, s0, ks. auto using run_call.
  - intros s l (s_init & s0 & ks & Hfile & Hload & Hrun).
    exists s_init, s0, ks. auto using run_summary.
Qed.

Lemma attempt_mode_loaded_run (file : option text) all_hashes wordlist candidate :
  triple (loaded_run file) (attempt_mode all_hashes wordlist candidate)
    (fun _ => loaded_run file) (fun _ => loaded_run file).
Proof.
  apply attempt_mode_keeps
    with (seen := loaded_keys file) (G := fun _ => True).
  - apply loaded_run_stable.
  - intros s (s_init & s0 & ks & <- & Hload & Hrun).
    destruct (load_log_result _ _ Hload) as [Hseen Hcons].
    eapply run_to_invariant in Hrun; [|reflexivity | exact Hcons].
    destruct Hrun as [-> _]. exact Hseen.
  - intros h clear ts _ s (s_init & s0 & ks & Hfile & Hload & Hrun).
    destruct (append_log _ s) as [[[]|e] s2] eqn:Happ.
    + exists s_init, s0, (ks ++ [str_key h candidate.1]).
      split; [exact Hfile|]. split; [exact Hload|].
      eapply run_append; eassumption.
    + unfold append_log in Happ.
      destruct (log_entries s); try discriminate;
        injection Happ as _ <-; exists s_init, s0, ks; auto.
  - intros w pairs _. apply Forall_forall. auto.
Qed.

(** A whole run stays within [run_to]: either it ends before the
    ledger is loaded, or its last state is one that the state the
    loader left leads to. *)
Lemma main_run_to (file : option text) argv files (w : World) :
  let s := (main argv files (boot file w)).2 in
  not_loaded file s \/ loaded_run file s.
Proof.
  assert (H : triple (not_loaded file) (main argv files)
                (fun _ => loaded_run file)
                (fun _ s => not_loaded file s \/ loaded_run file s)).
  { apply main_keeps with (J := not_loaded file).
    - apply not_loaded_stable.
    - apply loaded_run_stable.
    - auto.
    - auto.
    - intros s [Hfile _]. unfold load_log.
      destruct (load_log_entries (ledger s)) as [seen data] eqn:Hl. simpl.
      exists s; eexists; exists []. split; [exact Hfile|]. split.
      + unfold load_log. rewrite Hl. reflexivity.
      + apply run_start.
    - intros all_hashes wordlist candidate.
      eapply triple_weaken
        with (P' := loaded_run file) (Q' := fun _ => loaded_run file)
             (X' := fun _ => loaded_run file);
        [apply attempt_mode_loaded_run | auto | auto | intros; right; auto]. }
  specialize (H (boot file w) (conj eq_refl eq_refl)).
  simpl. destruct (main argv files (boot file w)) as [[a|e] s]; simpl; auto.
Qed.

End DerivedSet.

(** ** Writing the ledger and loading it back *)

Section RoundTrip.
Context `{E : Env}.

Lemma append_all (entries prior : list log_entry) (s : state) :
  log_entries s = PyList (map entry_dict prior) ->
  exists s',
    for_each (fun e => append_log (entry_dict e)) entries s = (Ok tt, s')
    /\ log_entries s' = PyList (map entry_dict (prior ++ entries))
    /\ ledger s' = match entries with
                   | [] => ledger s
                   | _ :: _ =>
                       Some (json_dump (PyList (map entry_dict (prior ++ entries))))
                   end.
Proof.
  revert prior s. induction entries as [|e entries IH]; intros prior s Hs.
  - exists s. rewrite app_nil_r. auto.
  - simpl. unfold mbind, M_bind. unfold append_log at 1. rewrite Hs.
    match goal with |- context [for_each _ entries ?s1] =>
      destruct (IH (prior ++ [e]) s1) as (s' & -> & Hlog & Hfile) end.
    { simpl. rewrite map_app. reflexivity. }
    exists s'. rewrite <- app_assoc in Hlog, Hfile. simpl in Hlog, Hfile.
    split; [reflexivity|]. split; [exact Hlog|].
    rewrite Hfile. destruct entries; [|reflexivity].
    simpl. rewrite map_app. reflexivity.
Qed.

(** C6. Start from no ledger file and an empty list, append the
    entries one by one, each call writing the file, and load the file:
    the key set loaded is the set of the [(hash, mode_id)] tuples of
    the entries.  The codec is taken to give back what it wrote. *)
Theorem ledger_roundtrip (entries : list log_entry) (w : World) :
  json_roundtrip ->
  let s := (for_each (fun e => append_log (entry_dict e)) entries
              (boot None w)).2 in
  (load_log_entries (ledger s)).1 = list_to_set (map entry_tuple entries).
Proof.
  intros Hrt.
  destruct (append_all entries [] (boot None w) eq_refl)
    as (s' & -> & Hlog & Hfile).
  simpl. rewrite Hfile. destruct entries as [|e entries]; [reflexivity|].
  unfold load_log_entries. rewrite Hrt.
  change ([] ++ e :: entries) with (e :: entries).
  rewrite key_set_entries. reflexivity.
Qed.

End RoundTrip.

(** ** Running again on the ledger of a run *)

Section Rerun.
Context `{E : Env}.

Lemma pending_hashes_filter (all_hashes : list string) (mode_id : string)
    (seen : keyset) :
  pending_hashes all_hashes mode_id seen
  = filter (fun h => str_key h mode_id ∉ seen) all_hashes.
Proof.
  exact (snoc_loop_filter (fun h => str_key h mode_id ∉ seen) all_hashes []).
Qed.

Lemma appends_fresh_stable (seen : keyset) : stable (appends_fresh seen).
Proof.
  split.
  - intros s e He [Hseen Hall]. split; [exact Hseen|].
    unfold all_fresh in *. simpl.
    rewrite logged_snoc. destruct e; try discriminate;
      rewrite app_nil_r; exact Hall.
  - intros s w H. exact H.
  - intros s l H. exact H.
Qed.

Lemma load_log_loads (file : option text) :
  triple (not_loaded file) load_log
    (fun _ => appends_fresh (loaded_keys file))
    (fun _ => all_fresh (loaded_keys file)).
Proof.
  intros s [Hfile Hlog]. unfold load_log. rewrite Hfile.
  unfold loaded_keys. destruct (load_log_entries file) as [K data]. simpl.
  split; [reflexivity|]. unfold all_fresh. simpl. rewrite Hlog. constructor.
Qed.

End Rerun.

(** ** Characters and concatenation *)

Section Chars.

Lemma append_cons (x : ascii) (a b : string) :
  String x a +:+ b = String x (a +:+ b).
Proof. reflexivity. Qed.

Lemma append_nil (b : string) : "" +:+ b = b.
Proof. reflexivity. Qed.

Lemma append_assoc (a b c : string) : (a +:+ b) +:+ c = a +:+ (b +:+ c).
Proof.
  induction a as [|x a IH]; [reflexivity|].
  rewrite !append_cons, IH. reflexivity.
Qed.

Lemma append_empty_r (a : string) : a +:+ "" = a.
Proof.
  induction a as [|x a IH]; [reflexivity|].
  rewrite append_cons, IH. reflexivity.
Qed.

Lemma all_chars_app P (a b : string) :
  all_chars P (a +:+ b) = all_chars P a && all_chars P b.
Proof.
  induction a as [|x a IH]; [reflexivity|].
  rewrite append_cons. simpl. rewrite IH. apply andb_assoc.
Qed.

Lemma count_chars_app P (a b : string) :
  count_chars P (a +:+ b) = count_chars P a + count_chars P b.
Proof.
  induction a as [|x a IH]; [reflexivity|].
  rewrite append_cons. simpl. rewrite IH. lia.
Qed.

Lemma all_chars_impl (P Q : ascii -> bool) (s : string) :
  (forall c, P c = true -> Q c = true) ->
  all_chars P s = true -> all_chars Q s = true.
Proof.
  intros HPQ. induction s as [|x s IH]; simpl; [reflexivity|].
  intros [Hx Hs]%andb_true_iff. rewrite (HPQ x Hx), (IH Hs). reflexivity.
Qed.

End Chars.

(** ** What the matcher accepts *)

Section Matcher.
Context {R : Type}.
Variable accepts : ascii -> bool.
Variable k : string -> string -> option R.

Lemma greedy_sound (taken rest : string) (r : R) :
  Re.greedy accepts k taken rest = Some r ->
  exists t rest',
    rest = t +:+ rest'
    /\ all_chars accepts t = true
    /\ k (taken +:+ t) rest' = Some r.
Proof.
  revert taken. induction rest as [|c rest IH]; intros taken; simpl.
  - intros Hk. exists "", "". rewrite !append_empty_r. repeat split; auto.
  - destruct (accepts c) eqn:Hc.
    + destruct (Re.greedy accepts k (taken +:+ String c "") rest) as [r'|] eqn:Hg.
      * intros [= ->]. destruct (IH _ Hg) as (t & rest' & -> & Ht & Hk).
        exists (String c t), rest'. simpl. rewrite Hc, Ht.
        rewrite append_assoc in Hk. auto.
      * intros Hk. exists "", (String c rest). rewrite !append_empty_r. repeat split; auto.
    + intros Hk. exists "", (String c rest). rewrite !append_empty_r. repeat split; auto.
Qed.

Lemma reluctant_sound (taken rest : string) (r : R) :
  Re.reluctant accepts k taken rest = Some r ->
  exists t rest',
    rest = t +:+ rest'
    /\ all_chars accepts t = true
    /\ k (taken +:+ t) rest' = Some r.
Proof.
  revert taken. induction rest as [|c rest IH]; intros taken; simpl.
  - destruct (k taken "") as [r'|] eqn:Hk; [|discriminate].
    intros [= ->]. exists "", "". rewrite !append_empty_r. repeat split; auto.
  - destruct (k taken (String c rest)) as [r'|] eqn:Hk.
    + intros [= ->]. exists "", (String c rest). rewrite !append_empty_r. repeat split; auto.
    + destruct (accepts c) eqn:Hc; [|discriminate].
      intros Hg. destruct (IH _ Hg) as (t & rest' & -> & Ht & Hk').
      exists (String c t), rest'. simpl. rewrite Hc, Ht.
      rewrite append_assoc in Hk'. auto.
Qed.

End Matcher.

(** The matcher accepts a line only by cutting it into one string per
    item of the pattern, each made of what the item may take, up to
    the end of the line. *)
Lemma run_sound (p : list Re.item) (groups : list string) (rest : string)
    (gs : list string) :
  Re.run p groups rest = Some gs ->
  exists ts tail,
    Forall2 item_takes p ts
    /\ rest = flat ts +:+ tail
    /\ Re.at_end tail = true
    /\ gs = groups ++ captures p ts.
Proof.
  revert groups rest. induction p as [|it p IH]; intros groups rest; simpl.
  - destruct (Re.at_end rest) eqn:Hend; [|discriminate].
    intros [= <-]. exists [], rest. rewrite app_nil_r. auto.
  - assert (Hk : forall t rest0,
               all_chars (Re.cls it) t = true ->
               match Re.quant it with
               | Re.Once => String.length t = 1
               | Re.Star => True
               | _ => t <> ""
               end ->
               Re.run p (if Re.captured it then groups ++ [t] else groups) rest0
               = Some gs ->
               exists ts tail,
                 Forall2 item_takes (it :: p) ts
                 /\ t +:+ rest0 = flat ts +:+ tail
                 /\ Re.at_end tail = true
                 /\ gs = groups ++ captures (it :: p) ts).
    { intros t rest0 Hcls Hq Hrun.
      destruct (IH _ _ Hrun) as (ts & tail & Hall & -> & Hend & ->).
      exists (t :: ts), tail. simpl. rewrite append_assoc.
      split; [constructor; [split; assumption | exact Hall]|].
      split; [reflexivity|]. split; [exact Hend|].
      destruct (Re.captured it); [rewrite <- app_assoc|]; reflexivity. }
    destruct (Re.quant it) eqn:Hq.
    + unfold Re.once. destruct rest as [|c rest]; [discriminate|].
      destruct (Re.cls it c) eqn:Hc; [|discriminate].
      intros Hrun. apply (Hk (String c "") rest); simpl; auto.
      rewrite Hc. reflexivity.
    + intros Hg. apply greedy_sound in Hg as (t & rest' & -> & Ht & Hrun).
      apply (Hk t rest'); auto.
    + destruct rest as [|c rest]; [discriminate|].
      destruct (Re.cls it c) eqn:Hc; [|discriminate].
      intros Hg. apply greedy_sound in Hg as (t & rest' & -> & Ht & Hrun).
      apply (Hk (String c t) rest'); simpl; auto.
      rewrite Hc, Ht. reflexivity.
    + destruct rest as [|c rest]; [discriminate|].
      destruct (Re.cls it c) eqn:Hc; [|discriminate].
      intros Hg. apply reluctant_sound in Hg as (t & rest' & -> & Ht & Hrun).
      apply (Hk (String c t) rest'); simpl; auto.
      rewrite Hc, Ht. reflexivity.
Qed.

(** ** The candidates of an enumeration *)

Section Enumeration.

Lemma bar_once (t : string) :
  all_chars Re.bar t = true -> String.length t = 1 -> t = "|".
Proof.
  destruct t as [|c [|d t]]; try discriminate. simpl.
  rewrite andb_true_r. unfold Re.bar. intros Hc%Ascii.eqb_eq _. subst c.
  reflexivity.
Qed.

(** What the pattern accepts has the shape of a mode line. *)
Lemma match_line_shape (line : string) (gs : list string) :
  Re.match_line line = Some gs ->
  exists g1 g2 g3, gs = [g1; g2; g3] /\ mode_line line g1 g2 g3.
Proof.
  unfold Re.match_line. intros Hrun.
  apply run_sound in Hrun as (ts & tail & Hall & -> & Hend & ->).
  unfold Re.pattern in Hall.
  repeat match goal with
         | H : Forall2 _ (_ :: _) _ |- _ =>
             apply Forall2_cons_inv_l in H as (? & ? & [? ?] & H & ->)
         | H : Forall2 _ [] _ |- _ => apply Forall2_nil_inv_l in H as ->
         end.
  simpl in *.
  repeat match goal with
         | H : all_chars Re.bar ?t = true, H' : String.length ?t = 1 |- _ =>
             apply bar_once in H; [subst t | exact H']
         end.
  unfold flat. cbn [fold_right]. rewrite !append_assoc, append_nil.
  eexists _, _, _. split; [reflexivity|].
  eexists _, _, _, _, _, tail.
  split; [reflexivity|].
  repeat split; try assumption.
  repeat constructor; assumption.
Qed.

Lemma mode_line_bars (line g1 g2 g3 : string) :
  mode_line line g1 g2 g3 -> 2 <= count_chars Re.bar line.
Proof.
  intros (ws0 & ws1 & ws2 & ws3 & ws4 & tail & -> & _).
  rewrite !count_chars_app. simpl. lia.
Qed.

(** A line with fewer than two bars is no mode line. *)
Lemma match_line_needs_bars (line : string) :
  count_chars Re.bar line < 2 -> Re.match_line line = None.
Proof.
  intros Hbars. destruct (Re.match_line line) as [gs|] eqn:Hm; [|reflexivity].
  apply match_line_shape in Hm as (g1 & g2 & g3 & _ & Hshape).
  apply mode_line_bars in Hshape. lia.
Qed.

Lemma fold_left_pointwise {A B} (f g : A -> B -> A) (l : list B) (a : A) :
  (forall a x, f a x = g a x) -> fold_left f l a = fold_left g l a.
Proof.
  intros Hfg. revert a. induction l as [|x l IH]; intros a; [reflexivity|].
  cbn [fold_left]. rewrite Hfg. apply IH.
Qed.

(** A loop that appends what [f] yields of each item collects
    [omap f] of the list. *)
Lemma snoc_loop_omap {A B} (f : A -> option B) (l : list A) (acc : list B) :
  fold_left
    (fun acc x => match f x with Some y => acc ++ [y] | None => acc end) l acc
  = acc ++ omap f l.
Proof.
  revert acc. induction l as [|x l IH]; intros acc.
  - cbn. rewrite app_nil_r. reflexivity.
  - cbn [fold_left]. rewrite IH. cbn [omap list_omap].
    destruct (f x) as [y|]; [|reflexivity].
    rewrite <- app_assoc. reflexivity.
Qed.

Lemma modes_of_stdout_omap (stdout : string) :
  modes_of_stdout stdout = omap mode_of_line (PyStr.splitlines stdout).
Proof.
  rewrite <- (app_nil_l (omap mode_of_line (PyStr.splitlines stdout))).
  rewrite <- (snoc_loop_omap mode_of_line).
  unfold modes_of_stdout. apply fold_left_pointwise.
  intros acc line. unfold mode_of_line.
  destruct (Re.match_line line) as [[|g1 [|g2 [|g3 [|g4 gs]]]]|];
    reflexivity.
Qed.

Lemma digit_not_space (c : ascii) : Re.digit c = true -> not_space c = true.
Proof.
  destruct c as [[] [] [] [] [] [] [] []]; vm_compute; auto.
Qed.

Lemma lstrip_fixed (s : string) :
  match s with String c _ => PyStr.is_space c = false | EmptyString => True end ->
  PyStr.lstrip s = s.
Proof. destruct s as [|c s]; simpl; [reflexivity|]. intros ->. reflexivity. Qed.

Lemma rstrip_no_space (s : string) :
  all_chars not_space s = true -> PyStr.rstrip s = s.
Proof.
  induction s as [|c s IH]; simpl; [reflexivity|].
  unfold not_space at 1. intros [Hc Hs]%andb_true_iff.
  rewrite (IH Hs). apply negb_true_iff in Hc. rewrite Hc, andb_false_r.
  reflexivity.
Qed.

Lemma strip_no_space (s : string) :
  all_chars not_space s = true -> PyStr.strip s = s.
Proof.
  intros Hs. unfold PyStr.strip. rewrite lstrip_fixed.
  - apply rstrip_no_space, Hs.
  - destruct s as [|c s]; [exact I|]. simpl in Hs.
    apply andb_true_iff in Hs as [Hc _]. apply negb_true_iff in Hc. exact Hc.
Qed.

Lemma mode_of_line_some (line id name : string) :
  mode_of_line line = Some (id, name) ->
  exists g2 g3, mode_line line id g2 g3 /\ name = PyStr.strip g2.
Proof.
  unfold mode_of_line. intros Hmode.
  destruct (Re.match_line line) as [gs|] eqn:Hm; [|discriminate].
  destruct (match_line_shape _ _ Hm) as (g1 & g2 & g3 & Hgs & Hshape).
  rewrite Hgs in Hmode. injection Hmode as Hid Hname.
  pose proof Hshape as (? & ? & ? & ? & ? & ? & _ & _ & _ & Hdigits & _).
  rewrite (strip_no_space g1) in Hid
    by (eapply all_chars_impl; [apply digit_not_space | exact Hdigits]).
  exists g2, g3. rewrite <- Hid, <- Hname. split; [exact Hshape | reflexivity].
Qed.

(** X1. Every candidate that [get_candidate_modes] returns comes from
    a line of the output that has the shape of a mode line; its id is
    the first group of the line, a non-empty string of digits, and its
    name is the second group, stripped. *)
Theorem candidates_come_from_mode_lines (stdout : string) :
  Forall
    (fun candidate =>
       candidate.1 <> "" /\ all_chars Re.digit candidate.1 = true
       /\ exists line g2 g3,
            line ∈ PyStr.splitlines stdout
            /\ mode_line line candidate.1 g2 g3
            /\ candidate.2 = PyStr.strip g2)
    (modes_of_stdout stdout).
Proof.
  rewrite modes_of_stdout_omap. apply Forall_forall. intros [id name] Hin.
  apply list_elem_of_omap in Hin as (line & Hline & Hmode).
  apply mode_of_line_some in Hmode as (g2 & g3 & Hshape & Hname).
  cbn [fst snd].
  pose proof Hshape as (? & ? & ? & ? & ? & ? & _ & _ & Hne & Hdigits & _).
  split; [exact Hne|]. split; [exact Hdigits|].
  exists line, g2, g3. auto.
Qed.

(** X2. Lines with fewer than two bars (banners, blank lines) yield no
    candidate: an output made of such lines gives the empty list. *)
Theorem no_bars_no_candidates (stdout : string) :
  Forall (fun line => count_chars Re.bar line < 2) (PyStr.splitlines stdout) ->
  modes_of_stdout stdout = [].
Proof.
  rewrite modes_of_stdout_omap. intros Hall.
  induction Hall as [|line lines Hline _ IH]; [reflexivity|].
  simpl. unfold mode_of_line at 1.
  rewrite (match_line_needs_bars line Hline). exact IH.
Qed.

End Enumeration.

(** ** The hashes of a hash file *)

Section Hashes.

Lemma lstrip_sub (P : ascii -> bool) (s : string) :
  all_chars P s = true -> all_chars P (PyStr.lstrip s) = true.
Proof.
  induction s as [|c s IH]; simpl; [auto|].
  intros H. destruct (PyStr.is_space c); [|exact H].
  apply andb_true_iff in H as [_ H]. auto.
Qed.

Lemma rstrip_sub (P : ascii -> bool) (s : string) :
  all_chars P s = true -> all_chars P (PyStr.rstrip s) = true.
Proof.
  induction s as [|c s IH]; simpl; [auto|].
  intros [Hc Hs]%andb_true_iff.
  destruct (PyStr.is_empty (PyStr.rstrip s) && PyStr.is_space c); [reflexivity|].
  simpl. rewrite Hc, (IH Hs). reflexivity.
Qed.

Lemma strip_sub (P : ascii -> bool) (s : string) :
  all_chars P s = true -> all_chars P (PyStr.strip s) = true.
Proof. intros H. apply rstrip_sub, lstrip_sub, H. Qed.

Lemma rstrip_spaces (ws : string) :
  all_chars PyStr.is_space ws = true -> PyStr.rstrip ws = "".
Proof.
  induction ws as [|c ws IH]; simpl; [reflexivity|].
  intros [Hc Hs]%andb_true_iff. rewrite (IH Hs), Hc. reflexivity.
Qed.

Lemma lstrip_spaces (ws : string) :
  all_chars PyStr.is_space ws = true -> PyStr.lstrip ws = "".
Proof.
  induction ws as [|c ws IH]; simpl; [reflexivity|].
  intros [Hc Hs]%andb_true_iff. rewrite Hc. exact (IH Hs).
Qed.

Lemma rstrip_app_spaces (s ws : string) :
  all_chars PyStr.is_space ws = true ->
  PyStr.rstrip (s +:+ ws) = PyStr.rstrip s.
Proof.
  intros Hws. induction s as [|c s IH].
  - rewrite append_nil. apply rstrip_spaces, Hws.
  - rewrite append_cons. simpl. rewrite IH. reflexivity.
Qed.

(** White space at the end of a string is stripped with the rest. *)
Lemma strip_app_spaces (s ws : string) :
  all_chars PyStr.is_space ws = true ->
  PyStr.strip (s +:+ ws) = PyStr.strip s.
Proof.
  intros Hws. unfold PyStr.strip. induction s as [|c s IH].
  - rewrite append_nil, (lstrip_spaces ws Hws). reflexivity.
  - rewrite append_cons. simpl. destruct (PyStr.is_space c); [exact IH|].
    rewrite <- append_cons. apply rstrip_app_spaces, Hws.
Qed.

Lemma rstrip_idem (s : string) :
  PyStr.rstrip (PyStr.rstrip s) = PyStr.rstrip s.
Proof.
  induction s as [|c s IH]; simpl; [reflexivity|].
  destruct (PyStr.is_empty (PyStr.rstrip s) && PyStr.is_space c) eqn:Hc;
    [reflexivity|].
  simpl. rewrite IH, Hc. reflexivity.
Qed.

Lemma lstrip_head (s : string) :
  match PyStr.lstrip s with
  | String c _ => PyStr.is_space c = false
  | EmptyString => True
  end.
Proof.
  induction s as [|c s IH]; simpl; [exact I|].
  destruct (PyStr.is_space c) eqn:Hc; [exact IH | exact Hc].
Qed.

Lemma rstrip_head (s : string) :
  match s with
  | String c _ => PyStr.is_space c = false
  | EmptyString => True
  end ->
  match PyStr.rstrip s with
  | String c _ => PyStr.is_space c = false
  | EmptyString => True
  end.
Proof.
  destruct s as [|c s]; simpl; [auto|]. intros Hc.
  rewrite Hc, andb_false_r. exact Hc.
Qed.

(** Stripping a stripped string changes nothing. *)
Lemma strip_idem (s : string) : PyStr.strip (PyStr.strip s) = PyStr.strip s.
Proof.
  unfold PyStr.strip.
  rewrite (lstrip_fixed (PyStr.rstrip (PyStr.lstrip s))).
  - apply rstrip_idem.
  - apply rstrip_head, lstrip_head.
Qed.

Lemma all_chars_snoc (P : ascii -> bool) (s : string) (c : ascii) :
  all_chars P (s +:+ String c "") = all_chars P s && P c.
Proof. rewrite all_chars_app. simpl. rewrite andb_true_r. reflexivity. Qed.

(** Every line that iterating over a text file yields is a run of
    characters that end no line, followed by at most one line feed. *)
Lemma file_lines_shape (content : string) :
  Forall
    (fun line =>
       exists body,
         all_chars not_eol body = true
         /\ (line = body \/ line = body +:+ String PyStr.LF ""))
    (file_lines content).
Proof.
  remember (String.length content) as n eqn:Hn.
  revert content Hn. induction n as [n IH] using lt_wf_ind.
  intros [|c s] Hn; [constructor|]. simpl in Hn. simpl.
  destruct (Ascii.eqb c PyStr.LF || Ascii.eqb c PyStr.CR) eqn:Hc.
  - constructor.
    { exists "". split; [reflexivity|]. right. reflexivity. }
    destruct s as [|d s']; [constructor|].
    destruct (Ascii.eqb c PyStr.CR && Ascii.eqb d PyStr.LF).
    + apply (IH (String.length s')); [simpl in Hn; lia | reflexivity].
    + apply (IH (String.length (String d s'))); [lia | reflexivity].
  - assert (Hs : Forall
             (fun line => exists body, all_chars not_eol body = true
                /\ (line = body \/ line = body +:+ String PyStr.LF ""))
             (file_lines s))
      by (apply (IH (String.length s)); [lia | reflexivity]).
    assert (Hne : not_eol c = true) by (unfold not_eol; rewrite Hc; reflexivity).
    destruct (file_lines s) as [|l ls].
    + constructor; [|constructor]. exists (String c ""). simpl.
      rewrite Hne. auto.
    + apply Forall_cons in Hs as [(body & Hbody & Hl) Hls].
      constructor; [|exact Hls].
      exists (String c body). simpl. rewrite Hne, Hbody.
      split; [reflexivity|]. destruct Hl as [-> | ->]; auto.
Qed.

Lemma LF_is_space : PyStr.is_space PyStr.LF = true.
Proof. reflexivity. Qed.

Lemma hashes_of_text_omap (content : string) :
  hashes_of_text content = omap hash_of_line (file_lines content).
Proof.
  rewrite <- (app_nil_l (omap hash_of_line (file_lines content))).
  rewrite <- (snoc_loop_omap hash_of_line).
  unfold hashes_of_text. apply fold_left_pointwise.
  intros acc line. unfold hash_of_line. cbv zeta.
  destruct (negb (PyStr.is_empty (PyStr.strip line))
            && negb (PyStr.startswith "#" (PyStr.strip line)));
    reflexivity.
Qed.

Lemma hash_of_line_clean (line h : string) :
  (exists body, all_chars not_eol body = true
     /\ (line = body \/ line = body +:+ String PyStr.LF "")) ->
  hash_of_line line = Some h -> clean_hash h.
Proof.
  intros (body & Hbody & Hline). unfold hash_of_line.
  destruct (negb (PyStr.is_empty (PyStr.strip line))
            && negb (PyStr.startswith "#" (PyStr.strip line))) eqn:Hkeep;
    [|discriminate].
  intros [= <-]. apply andb_true_iff in Hkeep as [Hne Hhash].
  apply negb_true_iff in Hhash.
  assert (Hstrip : PyStr.strip line = PyStr.strip body).
  { destruct Hline as [-> | ->]; [reflexivity|].
    apply strip_app_spaces. reflexivity. }
  repeat split.
  - intros Hempty. rewrite Hempty in Hne. discriminate.
  - exact Hhash.
  - apply strip_idem.
  - rewrite Hstrip. apply strip_sub, Hbody.
Qed.

Lemma hashes_of_text_clean (content : string) :
  Forall clean_hash (hashes_of_text content).
Proof.
  rewrite hashes_of_text_omap. apply Forall_forall. intros h Hin.
  apply list_elem_of_omap in Hin as (line & Hline & Hh).
  pose proof (file_lines_shape content) as Hshape.
  rewrite Forall_forall in Hshape.
  exact (hash_of_line_clean line h (Hshape line Hline) Hh).
Qed.

Lemma file_lines_line (h rest : string) :
  all_chars not_eol h = true ->
  file_lines (h +:+ String PyStr.LF rest)
  = (h +:+ String PyStr.LF "") :: file_lines rest.
Proof.
  induction h as [|c h IH]; intros Hh.
  - rewrite !append_nil. simpl. destruct rest; reflexivity.
  - simpl in Hh. apply andb_true_iff in Hh as [Hc Hh].
    rewrite !append_cons. simpl. unfold not_eol in Hc.
    apply negb_true_iff in Hc. rewrite Hc, (IH Hh). reflexivity.
Qed.

Lemma hash_of_line_written (h : string) :
  clean_hash h -> hash_of_line (h +:+ String PyStr.LF "") = Some h.
Proof.
  intros (Hne & Hhash & Hstrip & _). unfold hash_of_line.
  rewrite strip_app_spaces by reflexivity. rewrite Hstrip, Hhash.
  destruct h; [congruence | reflexivity].
Qed.

Lemma subset_text_reads_back (hs : list string) :
  Forall clean_hash hs -> hashes_of_text (subset_text hs) = hs.
Proof.
  rewrite hashes_of_text_omap. unfold subset_text.
  induction 1 as [|h hs Hh _ IH]; [reflexivity|].
  simpl. rewrite append_assoc, append_cons, append_nil.
  rewrite file_lines_line by apply Hh.
  simpl. rewrite (hash_of_line_written h Hh). f_equal. exact IH.
Qed.

(** X3. Every hash that [get_all_hashes] returns is the stripped text
    of a line of the file; it is not empty, does not start with [#],
    has no white space at either end and holds no line end. *)
Theorem hashes_are_stripped_lines (content : string) :
  Forall
    (fun h =>
       (exists line, line ∈ file_lines content /\ h = PyStr.strip line)
       /\ h <> ""
       /\ PyStr.startswith "#" h = false
       /\ PyStr.strip h = h
       /\ all_chars not_eol h = true)
    (hashes_of_text content).
Proof.
  pose proof (hashes_of_text_clean content) as Hclean.
  rewrite Forall_forall in *. intros h Hin.
  split; [|exact (Hclean h Hin)].
  rewrite hashes_of_text_omap in Hin.
  apply list_elem_of_omap in Hin as (line & Hline & Hh).
  exists line. split; [exact Hline|].
  unfold hash_of_line in Hh.
  destruct (negb (PyStr.is_empty (PyStr.strip line))
            && negb (PyStr.startswith "#" (PyStr.strip line)));
    congruence.
Qed.

(** X4. The subset file of a mode is a hash file of the pending
    hashes: read the way the hash file is read, the text written for
    the pending list of any mode gives that list back. *)
Theorem subset_file_reads_back (content mode_id : string) (seen : keyset) :
  let pending := pending_hashes (hashes_of_text content) mode_id seen in
  hashes_of_text (subset_text pending) = pending.
Proof.
  intros pending. apply subset_text_reads_back.
  unfold pending. rewrite pending_hashes_filter.
  apply Forall_forall. intros h Hin.
  apply list_elem_of_filter in Hin as [_ Hin].
  pose proof (hashes_of_text_clean content) as Hclean.
  rewrite Forall_forall in Hclean. auto.
Qed.

End Hashes.

(** ** The ledger during a run *)

Section Ledger.
Context `{E : Env}.

Lemma collect_keys_elem (items : list pyval) (acc K : keyset) :
  collect_keys items acc = Ok K ->
  forall k, k ∈ K <-> k ∈ acc \/ exists e, e ∈ items /\ entry_key e = Ok k.
Proof.
  revert acc. induction items as [|x items IH]; intros acc; simpl.
  - intros [= <-] k. split; [auto|]. intros [H | (e & He & _)]; [exact H|].
    inversion He.
  - destruct (entry_key x) as [kx|err] eqn:Hx; simpl; [|discriminate].
    intros HK k. rewrite (IH _ HK k). split.
    + intros [Hin | (e & He & Hk)].
      * apply elem_of_union in Hin as [Hin | Hin]; [|auto].
        apply elem_of_singleton in Hin. subst k. right. exists x.
        split; [left | exact Hx].
      * right. exists e. split; [right; exact He | exact Hk].
    + intros [Hin | (e & He & Hk)].
      * left. set_solver.
      * apply elem_of_cons in He as [-> | He].
        -- left. rewrite Hx in Hk. injection Hk as ->. set_solver.
        -- right. eauto.
Qed.

Lemma ledger_follows_stable (file : option text) : stable (ledger_follows file).
Proof.
  split.
  - intros s e He H. unfold ledger_follows in *. simpl.
    rewrite logged_snoc. destruct e; try discriminate;
      rewrite app_nil_r; exact H.
  - intros s w H. exact H.
  - intros s l H. exact H.
Qed.

Lemma append_log_follows (file : option text) (h mode_id clear timestamp : string)
    (X : exn -> state -> Prop) :
  (forall e s, ledger_follows file s -> X e s) ->
  triple (ledger_follows file)
    (append_log (make_entry h mode_id clear timestamp))
    (fun _ => ledger_follows file) X.
Proof.
  intros HX s Hs. unfold append_log.
  destruct (log_entries s) as [| | | |items|] eqn:Hlog; try (apply HX, Hs).
  destruct Hs as (Hseen & Hrec & Hs).
  unfold ledger_follows. cbn [trace ledger log_entries already_cracked].
  rewrite logged_snoc. split; [exact Hseen|]. split.
  - apply Forall_app. split; [exact Hrec|].
    constructor; [|constructor]. exists (str_key h mode_id). reflexivity.
  - right. destruct Hs as [(Hnil & Hfile & Hdata) | (loaded & Hdata & Hitems & Hfile)].
    + exists items. rewrite Hnil. simpl. rewrite <- Hdata, Hlog. auto.
    + exists loaded. rewrite Hlog in Hitems. injection Hitems as ->.
      rewrite <- app_assoc. auto.
Qed.

Lemma load_log_follows (file : option text) (X : exn -> state -> Prop) :
  triple (not_loaded file) load_log (fun _ => ledger_follows file) X.
Proof.
  intros s [Hfile Hlog]. unfold load_log. rewrite Hfile.
  destruct (load_log_entries file) as [seen data] eqn:Hl.
  unfold ledger_follows. cbn [trace ledger log_entries already_cracked].
  rewrite Hlog, Hl.
  split; [reflexivity|]. split; [constructor|]. left. auto.
Qed.

(** A whole run: either it ends before it loads the ledger, having
    touched nothing, or the ledger follows what was loaded. *)
Lemma main_ledger (file : option text) argv files (w : World) :
  let s := (main argv files (boot file w)).2 in
  not_loaded file s \/ ledger_follows file s.
Proof.
  assert (H : triple (not_loaded file) (main argv files)
                (fun _ => ledger_follows file)
                (fun _ s => not_loaded file s \/ ledger_follows file s)).
  { apply main_keeps with (J := not_loaded file).
    - apply not_loaded_stable.
    - apply ledger_follows_stable.
    - auto.
    - auto.
    - apply load_log_follows.
    - intros all_hashes wordlist candidate.
      apply attempt_mode_keeps
        with (seen := (load_log_entries file).1) (G := fun _ => True).
      + apply ledger_follows_stable.
      + intros s Hs. apply Hs.
      + intros h clear ts _. apply append_log_follows. auto.
      + intros w' pairs _. apply Forall_forall. auto. }
  specialize (H (boot file w) (conj eq_refl eq_refl)).
  simpl. destruct (main argv files (boot file w)) as [[a|e] s]; simpl; auto.
Qed.


(** X8. With a codec that gives back what it wrote, the ledger file
    that a run leaves loads to the tuples that the run loaded together
    with the tuples of the entries it appended: the next run starts
    from every tuple logged so far. *)
Theorem next_run_loads_every_tuple (file : option text) argv files (w : World) :
  json_roundtrip ->
  let s := (main argv files (boot file w)).2 in
  forall k,
    k ∈ loaded_keys (ledger s)
    <-> k ∈ loaded_keys file
        \/ exists entry, entry ∈ logged (trace s) /\ entry_key entry = Ok k.
Proof.
  intros Hrt s k.
  assert (Hnone : logged (trace s) = [] -> ledger s = file ->
            k ∈ loaded_keys (ledger s)
            <-> k ∈ loaded_keys file
                \/ exists entry, entry ∈ logged (trace s) /\ entry_key entry = Ok k).
  { intros -> ->. split; [auto|]. intros [H | (e & He & _)]; [exact H|].
    inversion He. }
  destruct (main_ledger file argv files w)
    as [[Hfile Hlog] | (_ & Hrec & [(Hnil & Hfile & _) | (items & Hdata & _ & Hfile)])];
    fold s in Hfile; try fold s in Hlog; try fold s in Hnil; try fold s in Hrec;
    auto.
  pose proof (load_log_entries_consistent file) as Hcons.
  rewrite Hdata in Hcons. unfold key_set in Hcons. simpl in Hcons.
  destruct (collect_keys_records (logged (trace s)) (load_log_entries file).1 Hrec)
    as [K HK].
  assert (Hload : loaded_keys (ledger s) = K).
  { unfold loaded_keys. rewrite Hfile. unfold load_log_entries. rewrite Hrt.
    unfold key_set. simpl. rewrite collect_keys_app, Hcons. simpl.
    rewrite HK. reflexivity. }
  rewrite Hload. unfold loaded_keys.
  apply (collect_keys_elem _ _ _ HK).
Qed.

(** X5. A ledger file whose content is a list of records is loaded as
    it is: the entries are the list itself and the set holds exactly
    the tuples of its records. *)
Theorem load_log_entries_records (t : text) (items : list pyval) :
  json_load t = Some (PyList items) ->
  Forall is_record items ->
  exists seen,
    load_log_entries (Some t) = (seen, PyList items)
    /\ forall k, k ∈ seen <-> exists e, e ∈ items /\ entry_key e = Ok k.
Proof.
  intros Hload Hrec. unfold load_log_entries. rewrite Hload.
  unfold key_set. simpl.
  destruct (collect_keys_records items ∅ Hrec) as [K HK]. rewrite HK.
  exists K. split; [reflexivity|]. intros k.
  rewrite (collect_keys_elem _ _ _ HK k). split; [|auto].
  intros [Hin | H]; [|exact H]. apply elem_of_empty in Hin. contradiction.
Qed.

(** X6. Where the loader hands back something that is not a list (the
    empty object or the empty string), no run ever writes the ledger
    file or appends an entry: every [append_log] raises before it
    writes. *)
Theorem non_list_ledger_is_never_written (t : text) (data : pyval)
    argv files (w : World) :
  json_load t = Some data ->
  data = PyDict [] \/ data = PyStr "" ->
  let s := (main argv files (boot (Some t) w)).2 in
  ledger s = Some t /\ logged (trace s) = [].
Proof.
  intros Hload Hdata s.
  assert (Hval : (load_log_entries (Some t)).2 = data).
  { unfold load_log_entries. rewrite Hload.
    destruct Hdata as [-> | ->]; reflexivity. }
  destruct (main_ledger (Some t) argv files w)
    as [[Hfile Hlog] | (_ & _ & [(Hnil & Hfile & _) | (items & Hitems & _)])];
    try fold s in Hfile; try fold s in Hlog; try fold s in Hnil; auto.
  rewrite Hval in Hitems. destruct Hdata as [-> | ->]; discriminate.
Qed.

End Ledger.

(** ** The lines of an output *)

Section OutputLines.


Lemma rstrip_fixed (s : string) :
  ends_with_space s = false -> PyStr.rstrip s = s.
Proof.
  induction s as [|c s IH]; [reflexivity|].
  intros Hend. simpl. destruct s as [|d s'].
  - simpl in *. rewrite Hend. reflexivity.
  - rewrite (IH Hend). reflexivity.
Qed.


Lemma starts_with_space_head (s : string) :
  starts_with_space s = false <->
  match s with
  | String c _ => PyStr.is_space c = false
  | EmptyString => True
  end.
Proof. destruct s; simpl; tauto. Qed.











End OutputLines.

(** ** The extraction *)

Section ExtractionTotal.



End ExtractionTotal.

(** ** The exit status *)

Section Exit.
Context `{E : Env}.






End Exit.

(** ** The show calls of a run *)

Section RerunExact.
Context `{E : Env}.

(** One round, run from the state [s]: where each entry that it
    appends keeps [I], the round does.  [G] is what is known of the
    entries: it holds of every pair that the show call of the round
    yields. *)
Section RoundAt.
Variable I : state -> Prop.
Variable X : exn -> state -> Prop.
Hypothesis I_stable : stable I.
Variable all_hashes : list string.
Variable wordlist : string.
Variable candidate : string * string.
Variable G : string -> string -> Prop.
Variable s : state.
Hypothesis append_keeps : forall h clear timestamp,
  G h clear ->
  triple I (append_log (make_entry h candidate.1 clear timestamp))
    (fun _ => I) X.
Hypothesis show_yields :
  match show_call all_hashes wordlist candidate s with
  | Some (subset, stdout) =>
      forall pairs, pairs_of_stdout stdout = Ok pairs ->
                    Forall (fun p => G p.1 p.2) pairs
  | None => True
  end.

Lemma emit_keeps_at (w : World) (e : event) :
  is_append e = false ->
  triple (fun st => I st /\ world st = w) (emit e)
    (fun _ st => I st /\ world st = w) X.
Proof.
  intros He st [Hst Hw]. split; [|exact Hw].
  exact (stable_emit I I_stable st e He Hst).
Qed.

Lemma attempt_mode_keeps_at :
  I s ->
  match attempt_mode all_hashes wordlist candidate s with
  | (Ok _, s') => I s'
  | (Raise e, s') => X e s'
  end.
Proof.
  intros Hs. unfold show_call in show_yields.
  unfold attempt_mode. unfold mbind at 1, M_bind at 1, get. cbv beta iota.
  cbv zeta.
  remember (pending_hashes all_hashes candidate.1 (already_cracked s))
    as pending eqn:Hpend in |- *.
  destruct pending as [|h0 rest].
  { exact (stable_emit I I_stable s (Print (MsgSkipped candidate.1 candidate.2))
             eq_refl Hs). }
  rewrite <- Hpend in show_yields. cbv iota in show_yields.
  rewrite Hpend in show_yields. rewrite Hpend.
  clear h0 rest Hpend.
  set (pending := pending_hashes all_hashes candidate.1 (already_cracked s)) in *.
  match goal with |- let (r, s') := ?m s in _ =>
    assert (H : triple (fun st => I st /\ world st = world s) m (fun _ => I) X);
      [|specialize (H s (conj Hs eq_refl)); destruct (m s) as [[[]|e] s'];
        exact H]
  end.
  eapply triple_bind; [apply emit_keeps_at; reflexivity|]. intros ?.
  eapply triple_bind; [apply emit_keeps_at; reflexivity|]. intros ?.
  eapply triple_bind; [apply emit_keeps_at; reflexivity|]. intros ?.
  destruct (hashcat_attack candidate.1 pending wordlist (world s))
    as [returncode w] eqn:Hattack.
  eapply triple_bind
    with (R := fun cracked st =>
                 I st
                 /\ (cracked = true -> world st = w /\ (returncode =? 0)%Z = true)).
  { unfold run_hashcat_with_pot.
    eapply triple_bind; [apply emit_keeps_at; reflexivity|]. intros ?.
    intros st [Hst Hw]. unfold mbind, M_bind, call. rewrite Hw, Hattack.
    cbn. split; [exact (stable_world I I_stable st w Hst)|]. intros Hrc. auto. }
  intros cracked.
  eapply triple_bind with (R := fun _ => I).
  2:{ intros ?.
      eapply triple_bind; [apply emit_keeps; [exact I_stable | reflexivity]|].
      intros ?. apply emit_keeps; [exact I_stable | reflexivity]. }
  destruct cracked.
  2:{ intros st [Hst _].
      exact (stable_emit I I_stable st (Print MsgNotFound) eq_refl Hst). }
  eapply triple_bind
    with (R := fun pairs st => I st /\ Forall (fun p => G p.1 p.2) pairs).
  { intros st [Hst Hw]. destruct (Hw eq_refl) as [Hworld Hrc]. clear Hw.
    rewrite Hrc in show_yields.
    destruct (extract_cracked_from_pot_run candidate.1 pending wordlist st)
      as (pairs & Hpairs & ->).
    rewrite Hworld in Hpairs. split; [|exact (show_yields pairs Hpairs)].
    apply (stable_world I I_stable
             (with_trace st (trace st ++ [Show candidate.1]))).
    exact (stable_emit I I_stable st (Show candidate.1) eq_refl Hst). }
  intros pairs.
  eapply triple_bind
    with (R := fun _ st => I st /\ Forall (fun p => G p.1 p.2) pairs).
  { intros st [Hst Hall]. split; [|exact Hall].
    exact (stable_emit I I_stable st (Print MsgFound) eq_refl Hst). }
  intros ?. apply triple_pure. intros Hall.
  apply triple_for_each. intros p Hp. rewrite Forall_forall in Hall.
  unfold log_pair.
  eapply triple_bind; [apply print_keeps, I_stable|]. intros ?.
  eapply triple_bind; [apply call_keeps, I_stable|]. intros ts.
  eapply triple_bind; [apply append_keeps, (Hall p Hp)|]. intros ?.
  apply summary_append_keeps, I_stable.
Qed.

End RoundAt.

Lemma attempt_mode_fresh (seen : keyset) all_hashes wordlist candidate (s : state) :
  appends_fresh seen s ->
  round_reports all_hashes wordlist candidate s ->
  match attempt_mode all_hashes wordlist candidate s with
  | (Ok _, s') => appends_fresh seen s'
  | (Raise _, s') => all_fresh seen s'
  end.
Proof.
  intros Hs Hrep. pose proof Hs as [Hseen _].
  apply attempt_mode_keeps_at
    with (G := fun h _ => str_key h candidate.1 ∉ seen).
  - apply appends_fresh_stable.
  - intros h clear ts Hfresh st [Hst Hlog].
    unfold append_log. destruct (log_entries st); try exact Hlog.
    cbv beta iota. split; [exact Hst|].
    unfold all_fresh in *. cbn [trace]. rewrite logged_snoc.
    apply Forall_app. split; [exact Hlog|].
    constructor; [|constructor].
    exists (str_key h candidate.1). split; [reflexivity | exact Hfresh].
  - unfold round_reports in Hrep. unfold show_call in *.
    destruct (pending_hashes all_hashes candidate.1 (already_cracked s))
      as [|h0 rest] eqn:Hpend; [exact I|].
    destruct (hashcat_attack candidate.1 (h0 :: rest) wordlist (world s))
      as [rc w].
    destruct (rc =? 0)%Z; [|exact I].
    intros pairs Hpairs.
    pose proof (pairs_within_subset _ _ _ Hrep Hpairs) as Hin.
    eapply Forall_impl; [exact Hin|]. intros p Hp. cbv beta in Hp.
    rewrite <- Hpend, pending_hashes_filter in Hp.
    apply list_elem_of_filter in Hp as [Hp _]. rewrite <- Hseen. exact Hp.
  - exact Hs.
Qed.

Lemma appended_since_stable (P : string -> string -> Prop) mode_id (s : state) :
  stable (appended_since P mode_id s).
Proof.
  split.
  - intros st e He (more & Hlog & Hall). exists more. split; [|exact Hall].
    cbn [trace with_trace]. rewrite logged_snoc, Hlog.
    destruct e; try discriminate; apply app_nil_r.
  - intros st w H. exact H.
  - intros st l H. exact H.
Qed.

(** X11. A round of the mode loop appends only entries of its mode
    for pairs parsed from the output of its own show call, and none
    when it makes no show call (the pending list is empty or the
    attack returns non-zero). *)
Theorem round_appends_what_is_shown all_hashes wordlist candidate (s : state) :
  let s' := (attempt_mode all_hashes wordlist candidate s).2 in
  exists more,
    logged (trace s') = logged (trace s) ++ more
    /\ match show_call all_hashes wordlist candidate s with
       | Some (_, stdout) =>
           exists pairs,
             pairs_of_stdout stdout = Ok pairs
             /\ Forall (entry_of (fun h clear => (h, clear) ∈ pairs) candidate.1)
                  more
       | None => more = []
       end.
Proof.
  intros s'.
  set (P := shown_pair all_hashes wordlist candidate s).
  assert (H : appended_since P candidate.1 s s').
  { pose proof (attempt_mode_keeps_at (appended_since P candidate.1 s)
                  (fun _ => appended_since P candidate.1 s)
                  (appended_since_stable P candidate.1 s)
                  all_hashes wordlist candidate P s) as Hkeep.
    unfold s'.
    destruct (attempt_mode all_hashes wordlist candidate s) as [[[]|e] s1];
      apply Hkeep; clear Hkeep.
    all: try (exists []; rewrite app_nil_r; split; [reflexivity | constructor]).
    all: try (intros h clear ts HP st (more & Hlog & Hall);
              unfold append_log; destruct (log_entries st);
              try (exists more; split; assumption);
              exists (more ++ [make_entry h candidate.1 clear ts]);
              cbn [trace]; rewrite logged_snoc, Hlog, <- app_assoc;
              split; [reflexivity|];
              apply Forall_app; split; [exact Hall|];
              constructor; [|constructor];
              exists h, clear, ts; split; [reflexivity | exact HP]).
    all: unfold P, shown_pair;
      destruct (show_call all_hashes wordlist candidate s) as [[subset stdout]|];
      [|exact I];
      intros pairs Hpairs; apply Forall_forall; intros [h clear] Hin;
      exists pairs; split; assumption. }
  destruct H as (more & Hlog & Hall). exists more. split; [exact Hlog|].
  unfold P, shown_pair in Hall.
  destruct (show_call all_hashes wordlist candidate s) as [[subset stdout]|].
  - destruct (collect_pairs_spec (PyStr.splitlines (PyStr.strip stdout)) [])
      as (pairs & Hpairs & _).
    exists pairs. split; [exact Hpairs|].
    eapply Forall_impl; [exact Hall|].
    intros entry (h & clear & ts & -> & pairs' & Hpairs' & Hin).
    exists h, clear, ts. split; [reflexivity|].
    unfold pairs_of_stdout in Hpairs'. rewrite Hpairs in Hpairs'.
    apply Ok_inj in Hpairs'. subst pairs'. exact Hin.
  - destruct more as [|entry more]; [reflexivity|].
    apply Forall_cons in Hall as [(h & clear & ts & _ & []) _].
Qed.

Lemma mode_loop_fresh (seen : keyset) all_hashes wordlist candidates (s : state) :
  appends_fresh seen s ->
  loop_reports all_hashes wordlist candidates s ->
  match mode_loop all_hashes wordlist candidates s with
  | (Ok _, s') => appends_fresh seen s'
  | (Raise _, s') => all_fresh seen s'
  end.
Proof.
  unfold mode_loop. revert s.
  induction candidates as [|c cs IH]; intros s Hs Hrep.
  - exact Hs.
  - destruct Hrep as [Hround Hrest]. cbn [for_each].
    unfold mbind at 1, M_bind at 1.
    pose proof (attempt_mode_fresh seen all_hashes wordlist c s Hs Hround) as H.
    destruct (attempt_mode all_hashes wordlist c s) as [[[]|e] s1].
    + apply IH; assumption.
    + exact H.
Qed.

(** Where every show call of a run lists hashes of its subset only,
    every entry that the run appends brings a tuple the ledger it
    started from does not hold. *)
Lemma main_fresh (file : option text) argv files (w : World) :
  run_reports argv files (boot file w) ->
  all_fresh (loaded_keys file) (main argv files (boot file w)).2.
Proof.
  intros Hrep. unfold run_reports in Hrep.
  assert (Hpro : triple (not_loaded file) (prologue argv files)
                   (fun _ => appends_fresh (loaded_keys file))
                   (fun _ => all_fresh (loaded_keys file))).
  { apply prologue_keeps with (J := not_loaded file).
    - apply not_loaded_stable.
    - apply appends_fresh_stable.
    - intros e s [_ Hlog]. unfold all_fresh. rewrite Hlog. constructor.
    - intros e s [_ Hall]. exact Hall.
    - apply load_log_loads. }
  specialize (Hpro (boot file w) (conj eq_refl eq_refl)).
  unfold main. unfold mbind at 1, M_bind at 1.
  destruct (prologue argv files (boot file w)) as [[setup|e] s1];
    [|exact Hpro].
  unfold mbind, M_bind.
  pose proof (mode_loop_fresh _ _ _ _ s1 Hpro Hrep) as Hloop.
  destruct (mode_loop setup.1.2 setup.2 setup.1.1 s1) as [[[]|e] s2];
    [|exact Hloop].
  assert (Hepi : triple (appends_fresh (loaded_keys file)) epilogue
                   (fun _ => appends_fresh (loaded_keys file))
                   (fun _ => all_fresh (loaded_keys file))).
  { apply epilogue_keeps.
    - apply appends_fresh_stable.
    - intros e s [_ Hall]. exact Hall. }
  specialize (Hepi s2 Hloop).
  destruct (epilogue s2) as [[[]|e] s3]; [apply Hepi | exact Hepi].
Qed.

(** A tool whose every show call lists hashes of its subset only does
    so in every run. *)
Lemma tool_reports_run argv files (s : state) :
  show_reports_subset -> run_reports argv files s.
Proof.
  intros Htool.
  assert (Hround : forall all_hashes wordlist c st,
            round_reports all_hashes wordlist c st).
  { intros all_hashes wordlist c st. unfold round_reports, show_call.
    destruct (pending_hashes all_hashes c.1 (already_cracked st)) as [|h0 rest];
      [exact I|].
    destruct (hashcat_attack c.1 (h0 :: rest) wordlist (world st)) as [rc w1].
    destruct (rc =? 0)%Z; [apply Htool | exact I]. }
  assert (Hloop : forall all_hashes wordlist cs st,
            loop_reports all_hashes wordlist cs st).
  { intros all_hashes wordlist cs. induction cs as [|c cs IH]; intros st.
    - exact I.
    - cbn [loop_reports]. split; [apply Hround|].
      destruct (attempt_mode all_hashes wordlist c st) as [[[]|e] s1];
        [apply IH | exact I]. }
  unfold run_reports.
  destruct (prologue argv files s) as [[setup|e] s1]; [apply Hloop | exact I].
Qed.

(** C5 (amended). Run the program, then run it again on the ledger
    file the first run left.  When every show call that the second run
    makes lists only hashes of the subset it is given (each line with
    a colon is [h:cleartext] for a colon-free [h] of the subset), no
    entry appended in the second run has a [(hash, mode_id)] tuple
    that the ledger held after the first run. *)
Theorem rerun_appends_nothing_known argv files file0 (w0 w1 : World) :
  let s1 := (main argv files (boot file0 w0)).2 in
  run_reports argv files (boot (ledger s1) w1) ->
  let s2 := (main argv files (boot (ledger s1) w1)).2 in
  Forall (fresh_entry (load_log_entries (ledger s1)).1) (logged (trace s2)).
Proof.
  intros s1 Hrep s2. exact (main_fresh (ledger s1) argv files w1 Hrep).
Qed.

End RerunExact.

(** ** The trace of a run *)

Section Traces.
Context `{E : Env}.

Lemma count_events_app (P : event -> bool) (a b : list event) :
  count_events P (a ++ b) = count_events P a + count_events P b.
Proof.
  induction a as [|e a IH]; [reflexivity|]. simpl. rewrite IH. lia.
Qed.

Lemma count_events_none (P ok : event -> bool) (tr : list event) :
  (forall e, ok e = true -> P e = false) ->
  Forall (fun e => ok e = true) tr -> count_events P tr = 0.
Proof.
  intros Hok. induction 1 as [|e tr He _ IH]; [reflexivity|].
  simpl. rewrite (Hok e He), IH. reflexivity.
Qed.

Lemma omap_none {A B} (f : A -> option B) (l : list A) :
  Forall (fun x => f x = None) l -> omap f l = [].
Proof.
  induction 1 as [|x l Hx _ IH]; [reflexivity|].
  cbn [omap list_omap]. rewrite Hx. exact IH.
Qed.

Section Since.
Variable ok : event -> bool.
Variable seen : keyset.
Variable base : list event.

Lemma emit_since (e : event) X :
  ok e = true -> triple (added_since ok seen base) (emit e)
    (fun _ => added_since ok seen base) X.
Proof.
  intros He st [Hseen (more & Htr & Hall)]. split; [exact Hseen|].
  exists (more ++ [e]). cbn [trace]. rewrite Htr, <- app_assoc.
  split; [reflexivity|]. apply Forall_app. split; [exact Hall|].
  constructor; [exact He | constructor].
Qed.

Lemma call_since {A} (f : World -> A * World) X :
  triple (added_since ok seen base) (call f)
    (fun _ => added_since ok seen base) X.
Proof.
  intros st Hst. unfold call. destruct (f (world st)) as [a w]. exact Hst.
Qed.

Lemma summary_append_since (r : summary_record) X :
  triple (added_since ok seen base) (summary_append r)
    (fun _ => added_since ok seen base) X.
Proof. intros st Hst. exact Hst. Qed.

Lemma append_log_since (entry : pyval) :
  ok (AppendLog entry) = true ->
  triple (added_since ok seen base) (append_log entry)
    (fun _ => added_since ok seen base) (fun _ => added_since ok seen base).
Proof.
  intros He st Hst. unfold append_log.
  destruct (log_entries st); try exact Hst.
  destruct Hst as [Hseen (more & Htr & Hall)]. split; [exact Hseen|].
  exists (more ++ [AppendLog entry]). cbn [trace]. rewrite Htr, <- app_assoc.
  split; [reflexivity|]. apply Forall_app. split; [exact Hall|].
  constructor; [exact He | constructor].
Qed.

End Since.

(** What follows the attack of a round adds messages, the show call
    and appends, and nothing else. *)
Lemma after_attack_since (seen : keyset) (base : list event) mode_id mode_name
    (pending : list string) wordlist (cracked : bool) :
  triple (added_since is_inner seen base)
    (if cracked
     then pairs ← extract_cracked_from_pot mode_id pending wordlist;
          print MsgFound ;;
          for_each (log_pair mode_id mode_name pairs) pairs
     else print MsgNotFound)
    (fun _ => added_since is_inner seen base)
    (fun _ => added_since is_inner seen base).
Proof.
  destruct cracked; [|apply emit_since; reflexivity].
  eapply triple_bind.
  { unfold extract_cracked_from_pot.
    eapply triple_bind; [apply emit_since; reflexivity|]. intros ?.
    eapply triple_bind; [apply call_since|]. intros stdout.
    destruct (pairs_of_stdout stdout) as [pairs|e].
    - apply triple_ret with (Q := fun _ => added_since is_inner seen base). auto.
    - apply triple_raise. auto. }
  intros pairs.
  eapply triple_bind; [apply emit_since; reflexivity|]. intros ?.
  apply triple_for_each. intros p _. unfold log_pair.
  eapply triple_bind; [apply emit_since; reflexivity|]. intros ?.
  eapply triple_bind; [apply call_since|]. intros ts.
  eapply triple_bind; [apply append_log_since; reflexivity|]. intros ?.
  apply summary_append_since.
Qed.

(** The events of one round: the skip message when nothing is
    pending; otherwise the events of an attempt, with the cleanup
    exactly when the round runs to its end. *)
Lemma attempt_mode_events all_hashes wordlist candidate (s : state) :
  let pending := pending_hashes all_hashes candidate.1 (already_cracked s) in
  let r := (attempt_mode all_hashes wordlist candidate s).1 in
  let s' := (attempt_mode all_hashes wordlist candidate s).2 in
  already_cracked s' = already_cracked s
  /\ match pending with
     | [] =>
         r = Ok tt
         /\ trace s' = trace s ++ [Print (MsgSkipped candidate.1 candidate.2)]
     | _ :: _ =>
         exists inner,
           Forall (fun e => is_inner e = true) inner
           /\ trace s'
              = trace s
                ++ round_events candidate pending inner
                     (match r with Ok _ => true | Raise _ => false end)
     end.
Proof.
  intros pending r s'. subst r s'.
  destruct (attempt_mode all_hashes wordlist candidate s) as [r s'] eqn:Hrun.
  cbn [fst snd].
  unfold attempt_mode in Hrun.
  unfold mbind at 1, M_bind at 1, get in Hrun. cbv beta iota zeta in Hrun.
  fold pending in Hrun. destruct pending as [|h0 rest] eqn:Hpend.
  { cbv [print emit] in Hrun. injection Hrun as <- <-. cbn. auto. }
  rewrite <- Hpend in *. clear h0 rest Hpend.
  cbv [mbind M_bind print emit run_hashcat_with_pot call mret M_ret] in Hrun.
  cbn [world trace already_cracked log_entries cracked_summary ledger] in Hrun.
  destruct (hashcat_attack candidate.1 pending wordlist (world s))
    as [returncode w].
  match type of Hrun with
  | (let (_, _) := ?m ?s4 in _) = _ =>
      assert (Hmid : match m s4 with
                     | (Ok _, st) | (Raise _, st) =>
                         added_since is_inner (already_cracked s) (trace s4) st
                     end);
        [|destruct (m s4) as [[[]|e] s5]]
  end.
  { pose proof (after_attack_since (already_cracked s)
                  ((((trace s ++ [Print (MsgMode candidate.1 candidate.2)])
                     ++ [CreateSubsetFile pending]) ++ [CreatePotFile])
                   ++ [Attack candidate.1])
                  candidate.1 candidate.2 pending wordlist
                  (returncode =? 0)%Z) as H.
    match goal with |- match ?m ?s4 with _ => _ end =>
      specialize (H s4) end.
    cbv [mbind M_bind print emit] in H.
    match type of H with ?P -> _ =>
      assert (HP : P) by
        (split; [reflexivity|]; exists []; rewrite app_nil_r; split;
         [reflexivity | constructor])
    end.
    specialize (H HP).
    match goal with |- match ?run with _ => _ end =>
      destruct run as [[[]|e] s5] end; exact H. }
  - injection Hrun as <- <-. cbn [trace already_cracked].
    destruct Hmid as [Hseen (inner & Htr & Hinner)].
    split; [exact Hseen|]. exists inner. split; [exact Hinner|].
    rewrite Htr. unfold round_events. cbn [trace].
    rewrite <- !app_assoc. reflexivity.
  - injection Hrun as <- <-.
    destruct Hmid as [Hseen (inner & Htr & Hinner)].
    split; [exact Hseen|]. exists inner. split; [exact Hinner|].
    rewrite Htr. unfold round_events. cbn [trace].
    rewrite <- !app_assoc, app_nil_r. reflexivity.
Qed.


Lemma attacks_app (a b : list event) : attacks (a ++ b) = attacks a ++ attacks b.
Proof. apply omap_app. Qed.

Lemma subsets_app (a b : list event) : subsets (a ++ b) = subsets a ++ subsets b.
Proof. apply omap_app. Qed.

Lemma inner_counts (P : event -> bool) (inner : list event) :
  (forall e, is_inner e = true -> P e = false) ->
  Forall (fun e => is_inner e = true) inner -> count_events P inner = 0.
Proof. apply count_events_none. Qed.

Lemma round_events_facts candidate (pending : list string)
    (inner : list event) (finished : bool) :
  Forall (fun e => is_inner e = true) inner ->
  count_events is_create (round_events candidate pending inner finished) = 2
  /\ count_events is_remove (round_events candidate pending inner finished)
     = (if finished then 2 else 0)
  /\ attacks (round_events candidate pending inner finished) = [candidate.1]
  /\ subsets (round_events candidate pending inner finished) = [pending].
Proof.
  intros Hinner. unfold round_events.
  rewrite !count_events_app, !attacks_app, !subsets_app.
  rewrite (inner_counts is_create inner), (inner_counts is_remove inner);
    try exact Hinner; try (intros [] He; try discriminate; reflexivity).
  assert (Ha : attacks inner = []).
  { apply omap_none. eapply Forall_impl; [exact Hinner|].
    intros [] He; try discriminate; reflexivity. }
  assert (Hs : subsets inner = []).
  { apply omap_none. eapply Forall_impl; [exact Hinner|].
    intros [] He; try discriminate; reflexivity. }
  rewrite Ha, Hs. destruct finished; repeat split; reflexivity.
Qed.

(** The mode loop, run from a state whose derived set is [seen]:
    when it runs to its end it has attacked the candidates with a
    pending hash, each on a subset file of its pending list, and
    removed as many temporary files as it made; when it is left by an
    exception two of them are left. *)
Lemma mode_loop_events all_hashes wordlist candidates (s : state) r s' :
  mode_loop all_hashes wordlist candidates s = (r, s') ->
  match r with
  | Ok _ =>
      attacks (trace s')
      = attacks (trace s) ++ attacked (already_cracked s) all_hashes candidates
      /\ subsets (trace s')
         = subsets (trace s) ++ written (already_cracked s) all_hashes candidates
      /\ count_events is_create (trace s') + count_events is_remove (trace s)
         = count_events is_create (trace s) + count_events is_remove (trace s')
  | Raise _ =>
      count_events is_create (trace s') + count_events is_remove (trace s)
      = count_events is_create (trace s) + count_events is_remove (trace s') + 2
  end.
Proof.
  unfold mode_loop. revert s.
  induction candidates as [|c cs IH]; intros s Hrun.
  - cbn in Hrun. injection Hrun as <- <-. cbn. rewrite !app_nil_r. auto.
  - cbn [for_each] in Hrun. unfold mbind, M_bind in Hrun.
    pose proof (attempt_mode_events all_hashes wordlist c s) as Hround.
    cbv zeta in Hround.
    destruct (attempt_mode all_hashes wordlist c s) as [[[]|e] s1];
      cbn [fst snd] in Hround; destruct Hround as [Hseen Hround].
    + specialize (IH s1 Hrun). rewrite Hseen in IH.
      unfold attacked, written. cbn [omap list_omap].
      fold (attacked (already_cracked s) all_hashes cs).
      fold (written (already_cracked s) all_hashes cs).
      destruct (pending_hashes all_hashes c.1 (already_cracked s))
        as [|h0 rest] eqn:Hpend.
      * destruct Hround as [_ Htr].
        assert (Hc : forall P, (forall m, P (Print m) = false) ->
                     count_events P (trace s1) = count_events P (trace s)).
        { intros P HP. rewrite Htr, count_events_app. simpl. rewrite HP. lia. }
        assert (Ha : attacks (trace s1) = attacks (trace s))
          by (rewrite Htr, attacks_app; apply app_nil_r).
        assert (Hs : subsets (trace s1) = subsets (trace s))
          by (rewrite Htr, subsets_app; apply app_nil_r).
        rewrite Ha, Hs, (Hc is_create), (Hc is_remove) in IH by reflexivity.
        exact IH.
      * destruct Hround as (inner & Hinner & Htr).
        destruct (round_events_facts c (h0 :: rest) inner true Hinner)
          as (Hcr & Hrm & Ha & Hs).
        rewrite Htr, !count_events_app, attacks_app, subsets_app,
          Hcr, Hrm, Ha, Hs in IH.
        destruct r as [[]|e].
        -- destruct IH as (IHa & IHs & IHc).
           rewrite IHa, IHs, <- !app_assoc. repeat split; try reflexivity. lia.
        -- lia.
    + injection Hrun as <- <-.
      destruct (pending_hashes all_hashes c.1 (already_cracked s))
        as [|h0 rest] eqn:Hpend.
      * destruct Hround as [Hr _]. discriminate Hr.
      * destruct Hround as (inner & Hinner & Htr).
        destruct (round_events_facts c (h0 :: rest) inner false Hinner)
          as (Hcr & Hrm & _).
        rewrite Htr, !count_events_app, Hcr, Hrm. lia.
Qed.


(** The part of [main] before the loop: it leaves the ledger file
    alone and does nothing to the outside but print and enumerate; it
    exits with 1 or hands over the candidates of the enumeration, the
    hashes of the hash file and the loaded set. *)
Lemma prologue_events argv files file (w : World) r s1 :
  prologue argv files (boot file w) = (r, s1) ->
  ledger s1 = file
  /\ Forall (fun e => is_startup e = true) (trace s1)
  /\ match r with
     | Ok setup =>
         already_cracked s1 = loaded_keys file
         /\ exists content stdout,
              files (nth 1 argv "") = Some content
              /\ (hashcat_enumerate (nth 1 argv "") w).1 = Some stdout
              /\ setup = (modes_of_stdout stdout, hashes_of_text content,
                          nth 2 argv "")
     | Raise e => e = SystemExit 1
     end.
Proof.
  unfold prologue, validate_args.
  destruct argv as [|a0 [|hf [|wl [|x rest]]]];
    try (intros [= <- <-]; cbn; repeat split; repeat constructor; fail).
  simpl nth.
  destruct (bad_file files hf) eqn:Hhf.
  { intros [= <- <-]. cbn. repeat split; repeat constructor. }
  destruct (bad_file files wl) eqn:Hwl.
  { intros [= <- <-]. cbn. repeat split; repeat constructor. }
  cbv [mbind M_bind mret M_ret load_log print emit get_candidate_modes
       call sys_exit raise boot ledger world fst snd clear_summary].
  unfold loaded_keys.
  destruct (load_log_entries file) as [seen data].
  destruct (hashcat_enumerate hf w) as [[stdout|] w'] eqn:Henum; cbn.
  2:{ intros [= <- <-]. cbn. repeat split; repeat constructor. }
  destruct (modes_of_stdout stdout) as [|c cs] eqn:Hmodes.
  { intros [= <- <-]. cbn. repeat split; repeat constructor. }
  unfold get_all_hashes. unfold bad_file in Hhf.
  destruct (files hf) as [content|]; [|discriminate].
  cbn. intros [= <- <-]. cbn.
  split; [reflexivity|]. split; [repeat constructor|].
  split; [reflexivity|]. exists content, stdout. rewrite Hmodes. auto.
Qed.

(** The summary only prints. *)
Lemma epilogue_events (s : state) r s' :
  epilogue s = (r, s') ->
  exists more, trace s' = trace s ++ more
               /\ Forall (fun e => is_print e = true) more.
Proof.
  intros Hrun.
  assert (H : triple (added_since is_print (already_cracked s) (trace s)) epilogue
                (fun _ => added_since is_print (already_cracked s) (trace s))
                (fun _ => added_since is_print (already_cracked s) (trace s))).
  { unfold epilogue.
    eapply triple_bind; [apply emit_since; reflexivity|]. intros ?.
    apply triple_get_bind. intros s0 Hs0.
    eapply triple_weaken
      with (P' := added_since is_print (already_cracked s) (trace s))
           (Q' := fun _ => added_since is_print (already_cracked s) (trace s))
           (X' := fun _ => added_since is_print (already_cracked s) (trace s));
      [|intros st ->; exact Hs0|auto..].
    assert (Hexit : forall m code,
              triple (added_since is_print (already_cracked s) (trace s))
                (print m ;; sys_exit code)
                (fun _ : unit => added_since is_print (already_cracked s) (trace s))
                (fun _ => added_since is_print (already_cracked s) (trace s))).
    { intros m code.
      eapply triple_bind; [apply emit_since; reflexivity|]. intros ?.
      apply triple_raise. auto. }
    destruct (cracked_summary s0) as [|rec recs]; [apply Hexit|].
    eapply triple_bind
      with (R := fun _ => added_since is_print (already_cracked s) (trace s));
      [|intros ?; apply Hexit].
    apply triple_for_each. intros record _. unfold print_record.
    eapply triple_bind; [apply emit_since; reflexivity|]. intros ?.
    apply triple_for_each. intros p _. apply emit_since. reflexivity. }
  assert (Hs : added_since is_print (already_cracked s) (trace s) s).
  { split; [reflexivity|]. exists []. rewrite app_nil_r.
    split; [reflexivity | constructor]. }
  specialize (H s Hs). rewrite Hrun in H.
  destruct r as [a|e]; destruct H as [_ H]; exact H.
Qed.



(** A whole run, cut at the loop. *)
Lemma main_cut argv files file (w : World) :
  let r := (main argv files (boot file w)).1 in
  let s := (main argv files (boot file w)).2 in
  (prologue argv files (boot file w) = (Raise (SystemExit 1), s)
   /\ r = Raise (SystemExit 1))
  \/ exists setup s1 r2 s2,
       prologue argv files (boot file w) = (Ok setup, s1)
       /\ mode_loop setup.1.2 setup.2 setup.1.1 s1 = (r2, s2)
       /\ ((r2 = Raise AttributeError /\ r = Raise AttributeError /\ s = s2)
           \/ (r2 = Ok tt /\ r = Raise (SystemExit 0)
               /\ exists more, trace s = trace s2 ++ more
                                /\ Forall (fun e => is_print e = true) more)).
Proof.
  intros r s. subst r s. unfold main. unfold mbind, M_bind.
  destruct (prologue argv files (boot file w)) as [[setup|e] s1] eqn:Hpro.
  - right. exists setup, s1.
    destruct (mode_loop setup.1.2 setup.2 setup.1.1 s1) as [[[]|e] s2] eqn:Hloop.
    + exists (Ok tt), s2. split; [reflexivity|]. split; [reflexivity|]. right.
      pose proof (epilogue_exits s2) as Hexit.
      destruct (epilogue s2) as [r3 s3] eqn:Hepi. cbn [fst snd] in *.
      split; [reflexivity|]. split; [exact Hexit|].
      exact (epilogue_events s2 r3 s3 Hepi).
    + pose proof (mode_loop_raises _ _ _ _ _ _ Hloop) as ->.
      exists (Raise AttributeError), s2. cbn [fst snd]. auto 6.
  - left. destruct (prologue_events _ _ _ _ _ _ Hpro) as (_ & _ & ->).
    cbn [fst snd]. auto.
Qed.


(** X13. A run that reaches the end of the mode loop has attacked
    exactly the candidate modes for which a hash of the hash file was
    pending against the loaded set, in the order of the enumeration,
    each on a subset file that holds the pending list of the mode. *)
Theorem run_attacks_the_pending_modes argv files file (w : World)
    (content stdout : string) :
  files (nth 1 argv "") = Some content ->
  (hashcat_enumerate (nth 1 argv "") w).1 = Some stdout ->
  (main argv files (boot file w)).1 = Raise (SystemExit 0) ->
  let s := (main argv files (boot file w)).2 in
  attacks (trace s)
  = attacked (loaded_keys file) (hashes_of_text content) (modes_of_stdout stdout)
  /\ subsets (trace s)
     = written (loaded_keys file) (hashes_of_text content) (modes_of_stdout stdout).
Proof.
  intros Hfile Henum Hr s.
  destruct (main_cut argv files file w)
    as [[_ Hr'] | (setup & s1 & r2 & s2 & Hpro & Hloop & Hend)].
  { rewrite Hr in Hr'. discriminate. }
  fold s in Hend.
  destruct Hend as [(_ & Hr' & _) | (-> & _ & more & Htr & Hmore)].
  { rewrite Hr in Hr'. discriminate. }
  destruct (prologue_events _ _ _ _ _ _ Hpro)
    as (_ & Hstart & Hseen & content' & stdout' & Hfile' & Henum' & ->).
  rewrite Hfile in Hfile'. injection Hfile' as <-.
  rewrite Henum in Henum'. injection Henum' as <-.
  pose proof (mode_loop_events _ _ _ _ _ _ Hloop) as (Ha & Hs & _).
  cbn [fst snd] in Ha, Hs. rewrite Hseen in Ha, Hs.
  assert (Ha1 : attacks (trace s1) = []).
  { apply omap_none. eapply Forall_impl; [exact Hstart|].
    intros [] He; try discriminate; reflexivity. }
  assert (Hs1 : subsets (trace s1) = []).
  { apply omap_none. eapply Forall_impl; [exact Hstart|].
    intros [] He; try discriminate; reflexivity. }
  assert (Ha2 : attacks more = []).
  { apply omap_none. eapply Forall_impl; [exact Hmore|].
    intros [] He; try discriminate; reflexivity. }
  assert (Hs2 : subsets more = []).
  { apply omap_none. eapply Forall_impl; [exact Hmore|].
    intros [] He; try discriminate; reflexivity. }
  rewrite Htr, attacks_app, subsets_app, Ha, Hs, Ha1, Hs1, Ha2, Hs2.
  rewrite !app_nil_r. split; reflexivity.
Qed.


End Traces.

(** ** What the matcher finds *)

Section MatcherFinds.
Context {R : Type}.
Variable accepts : ascii -> bool.
Variable k : string -> string -> option R.

(** A greedy quantifier that can take all of a maximal run, with the
    rest of the pattern matching after it, takes it. *)
Lemma greedy_longest (taken t rest : string) (r : R) :
  all_chars accepts t = true ->
  stops_at accepts rest ->
  k (taken +:+ t) rest = Some r ->
  Re.greedy accepts k taken (t +:+ rest) = Some r.
Proof.
  revert taken. induction t as [|c t IH]; intros taken Ht Hstop Hk.
  - rewrite append_empty_r in Hk. rewrite append_nil.
    destruct rest as [|c rest]; [exact Hk|].
    cbn [Re.greedy]. cbn in Hstop. rewrite Hstop. exact Hk.
  - cbn [all_chars] in Ht. apply andb_true_iff in Ht as [Hc Ht].
    rewrite append_cons. cbn [Re.greedy]. rewrite Hc.
    rewrite (IH (taken +:+ String c "") Ht Hstop); [reflexivity|].
    rewrite append_assoc, append_cons, append_nil. exact Hk.
Qed.

(** The lazy quantifier stops at the first length at which the rest
    of the pattern matches. *)
Lemma reluctant_first (taken t rest : string) (r : R) :
  all_chars accepts t = true ->
  (forall t1 t2, t = t1 +:+ t2 -> t2 <> "" ->
                 k (taken +:+ t1) (t2 +:+ rest) = None) ->
  k (taken +:+ t) rest = Some r ->
  Re.reluctant accepts k taken (t +:+ rest) = Some r.
Proof.
  revert taken. induction t as [|c t IH]; intros taken Ht Hshort Hk.
  - rewrite append_empty_r in Hk. rewrite append_nil.
    destruct rest; cbn [Re.reluctant]; rewrite Hk; reflexivity.
  - cbn [all_chars] in Ht. apply andb_true_iff in Ht as [Hc Ht].
    rewrite append_cons. cbn [Re.reluctant].
    pose proof (Hshort "" (String c t) eq_refl ltac:(discriminate)) as H0.
    rewrite append_empty_r, append_cons in H0. rewrite H0, Hc.
    apply IH; [exact Ht| |].
    + intros t1 t2 -> Ht2.
      rewrite append_assoc, append_cons, append_nil.
      apply Hshort; [reflexivity | exact Ht2].
    + rewrite append_assoc, append_cons, append_nil. exact Hk.
Qed.

(** Backtracking finds a match wherever there is one. *)
Lemma greedy_complete (taken t rest : string) (r : R) :
  all_chars accepts t = true ->
  k (taken +:+ t) rest = Some r ->
  exists r', Re.greedy accepts k taken (t +:+ rest) = Some r'.
Proof.
  revert taken. induction t as [|c t IH]; intros taken Ht Hk.
  - rewrite append_empty_r in Hk. rewrite append_nil.
    destruct rest as [|c rest]; cbn [Re.greedy]; [eauto|].
    destruct (accepts c); [|eauto].
    destruct (Re.greedy accepts k (taken +:+ String c "") rest); eauto.
  - cbn [all_chars] in Ht. apply andb_true_iff in Ht as [Hc Ht].
    rewrite append_cons. cbn [Re.greedy]. rewrite Hc.
    destruct (IH (taken +:+ String c "") Ht) as [r' Hr'].
    { rewrite append_assoc, append_cons, append_nil. exact Hk. }
    rewrite Hr'. eauto.
Qed.

Lemma reluctant_complete (taken t rest : string) (r : R) :
  all_chars accepts t = true ->
  k (taken +:+ t) rest = Some r ->
  exists r', Re.reluctant accepts k taken (t +:+ rest) = Some r'.
Proof.
  revert taken. induction t as [|c t IH]; intros taken Ht Hk.
  - rewrite append_empty_r in Hk. rewrite append_nil.
    destruct rest; cbn [Re.reluctant]; rewrite Hk; eauto.
  - cbn [all_chars] in Ht. apply andb_true_iff in Ht as [Hc Ht].
    rewrite append_cons. cbn [Re.reluctant].
    destruct (k taken (String c (t +:+ rest))); [eauto|].
    rewrite Hc. apply (IH (taken +:+ String c "") Ht).
    rewrite append_assoc, append_cons, append_nil. exact Hk.
Qed.

End MatcherFinds.

Section Recognition.

Lemma run_complete (p : list Re.item) (ts : list string) (tail : string) :
  Forall2 item_takes p ts ->
  Re.at_end tail = true ->
  forall groups, exists gs, Re.run p groups (flat ts +:+ tail) = Some gs.
Proof.
  intros Hall Hend.
  induction Hall as [|it t p ts [Hcls Hq] _ IH]; intros groups.
  - unfold flat. cbn [fold_right Re.run]. rewrite append_nil, Hend. eauto.
  - unfold flat. cbn [fold_right]. fold (flat ts). rewrite append_assoc.
    cbn [Re.run].
    destruct (IH (if Re.captured it then groups ++ [t] else groups)) as [gs Hgs].
    destruct (Re.quant it).
    + destruct t as [|c [|d t]]; try discriminate.
      cbn in Hcls. rewrite andb_true_r in Hcls.
      rewrite append_cons, append_nil. unfold Re.once. rewrite Hcls. eauto.
    + eapply greedy_complete; [exact Hcls|]. rewrite append_nil. exact Hgs.
    + destruct t as [|c t]; [congruence|].
      cbn in Hcls. apply andb_true_iff in Hcls as [Hc Ht].
      rewrite append_cons, Hc.
      eapply greedy_complete; [exact Ht|]. rewrite append_cons, append_nil.
      exact Hgs.
    + destruct t as [|c t]; [congruence|].
      cbn in Hcls. apply andb_true_iff in Hcls as [Hc Ht].
      rewrite append_cons, Hc.
      eapply reluctant_complete; [exact Ht|]. rewrite append_cons, append_nil.
      exact Hgs.
Qed.

Lemma run_star (cls : ascii -> bool) (cap : bool) p groups rest :
  Re.run (Re.Item cls Re.Star cap :: p) groups rest
  = Re.greedy cls
      (fun taken rest' => Re.run p (if cap then groups ++ [taken] else groups) rest')
      "" rest.
Proof. reflexivity. Qed.

Lemma run_plus (cls : ascii -> bool) (cap : bool) p groups c rest :
  cls c = true ->
  Re.run (Re.Item cls Re.Plus cap :: p) groups (String c rest)
  = Re.greedy cls
      (fun taken rest' => Re.run p (if cap then groups ++ [taken] else groups) rest')
      (String c "") rest.
Proof. intros Hc. cbn [Re.run Re.quant Re.cls Re.captured]. rewrite Hc. reflexivity. Qed.

Lemma run_lazy (cls : ascii -> bool) (cap : bool) p groups c rest :
  cls c = true ->
  Re.run (Re.Item cls Re.LazyPlus cap :: p) groups (String c rest)
  = Re.reluctant cls
      (fun taken rest' => Re.run p (if cap then groups ++ [taken] else groups) rest')
      (String c "") rest.
Proof. intros Hc. cbn [Re.run Re.quant Re.cls Re.captured]. rewrite Hc. reflexivity. Qed.

Lemma run_once (cls : ascii -> bool) (cap : bool) p groups c rest :
  cls c = true ->
  Re.run (Re.Item cls Re.Once cap :: p) groups (String c rest)
  = Re.run p (if cap then groups ++ [String c ""] else groups) rest.
Proof.
  intros Hc. cbn [Re.run Re.quant Re.cls Re.captured]. unfold Re.once.
  rewrite Hc. reflexivity.
Qed.

Lemma space_not_digit (c : ascii) : PyStr.is_space c = true -> Re.digit c = false.
Proof. destruct c as [[] [] [] [] [] [] [] []]; vm_compute; auto. Qed.

Lemma space_not_bar (c : ascii) : PyStr.is_space c = true -> Re.bar c = false.
Proof. destruct c as [[] [] [] [] [] [] [] []]; vm_compute; auto. Qed.

Lemma stops_before_bar (P Q : ascii -> bool) (ws rest : string) :
  all_chars P ws = true ->
  (forall c, P c = true -> Q c = false) ->
  Q "|"%char = false ->
  stops_at Q (ws +:+ String "|" rest).
Proof.
  intros Hws HPQ Hbar. destruct ws as [|c ws]; [exact Hbar|].
  rewrite append_cons. cbn in *. apply andb_true_iff in Hws as [Hc _]. auto.
Qed.

Lemma stops_at_head (P Q : ascii -> bool) (t rest : string) :
  t <> "" -> all_chars P t = true ->
  (forall c, P c = true -> Q c = false) ->
  stops_at Q (t +:+ rest).
Proof.
  intros Hne Ht HPQ. destruct t as [|c t]; [congruence|].
  rewrite append_cons. cbn in *. apply andb_true_iff in Ht as [Hc _]. auto.
Qed.

Lemma spaces_have_no_bar (ws : string) :
  all_chars PyStr.is_space ws = true -> PyStr.contains "|" ws = false.
Proof.
  induction ws as [|c ws IH]; [reflexivity|]. cbn.
  intros [Hc Hws]%andb_true_iff. rewrite (IH Hws), orb_false_r.
  exact (space_not_bar c Hc).
Qed.

Lemma contains_app (sep : ascii) (a b : string) :
  PyStr.contains sep (a +:+ b) = PyStr.contains sep a || PyStr.contains sep b.
Proof.
  induction a as [|c a IH]; [reflexivity|].
  rewrite append_cons. cbn. rewrite IH, orb_assoc. reflexivity.
Qed.

Lemma ends_with_space_app (a b : string) :
  b <> "" -> ends_with_space (a +:+ b) = ends_with_space b.
Proof.
  intros Hb. induction a as [|c a IH]; [reflexivity|].
  rewrite append_cons. cbn [ends_with_space].
  destruct (a +:+ b) as [|d r] eqn:Hab; [|exact IH].
  destruct a; [|discriminate]. rewrite append_nil in Hab. congruence.
Qed.

Lemma spaces_end_with_space (t : string) :
  t <> "" -> all_chars PyStr.is_space t = true -> ends_with_space t = true.
Proof.
  induction t as [|c t IH]; [congruence|]. intros _. cbn.
  intros [Hc Ht]%andb_true_iff. destruct t as [|d t]; [exact Hc|].
  apply IH; [discriminate | exact Ht].
Qed.

Lemma after_name_needs_bar (groups : list string) (rest : string) gs :
  Re.run after_name groups rest = Some gs ->
  exists ws more d,
    rest = ws +:+ String "|" more
    /\ all_chars PyStr.is_space ws = true
    /\ gs = groups ++ [d].
Proof.
  intros Hrun.
  apply run_sound in Hrun as (ts & tail & Hall & -> & _ & ->).
  unfold after_name in Hall.
  repeat match goal with
         | H : Forall2 _ (_ :: _) _ |- _ =>
             apply Forall2_cons_inv_l in H as (? & ? & [? ?] & H & ->)
         | H : Forall2 _ [] _ |- _ => apply Forall2_nil_inv_l in H as ->
         end.
  cbn [Re.cls Re.quant Re.captured] in *.
  repeat match goal with
         | H : all_chars Re.bar ?t = true, H' : String.length ?t = 1 |- _ =>
             apply bar_once in H; [subst t | exact H']
         end.
  unfold flat. cbn [fold_right captures Re.captured app].
  rewrite !append_assoc, append_cons, append_nil.
  eexists _, _, _. split; [reflexivity|]. split; [assumption | reflexivity].
Qed.

Lemma after_name_matches (groups : list string) (ws3 ws4 cat tail : string) :
  all_chars PyStr.is_space ws3 = true ->
  all_chars PyStr.is_space ws4 = true ->
  cat <> "" -> all_chars Re.dot cat = true ->
  Re.at_end tail = true ->
  exists d,
    Re.run after_name groups (ws3 +:+ String "|" (ws4 +:+ cat +:+ tail))
    = Some (groups ++ [d]).
Proof.
  intros H3 H4 Hne Hcat Hend.
  assert (Hall : Forall2 item_takes after_name [ws3; "|"; ws4; cat]).
  { unfold after_name. repeat constructor; assumption. }
  destruct (run_complete _ _ tail Hall Hend groups) as [gs Hgs].
  unfold flat in Hgs. cbn [fold_right] in Hgs.
  rewrite !append_assoc, append_nil, append_cons, append_nil in Hgs.
  destruct (after_name_needs_bar _ _ _ Hgs) as (_ & _ & d & _ & _ & ->).
  exists d. exact Hgs.
Qed.

(** The lazy group cannot stop inside a name that holds no bar and
    does not end in white space: what follows must be white space and
    a bar. *)
Lemma after_name_fails_inside (groups : list string)
    (name t1 t2 ws3 rest : string) :
  PyStr.contains "|" name = false ->
  ends_with_space name = false ->
  all_chars PyStr.is_space ws3 = true ->
  name = t1 +:+ t2 -> t2 <> "" ->
  Re.run after_name groups (t2 +:+ ws3 +:+ String "|" rest) = None.
Proof.
  intros Hbar Hend H3 -> Hne.
  destruct (Re.run after_name groups (t2 +:+ ws3 +:+ String "|" rest))
    as [gs|] eqn:Hrun; [|reflexivity].
  exfalso.
  apply after_name_needs_bar in Hrun as (ws & more & _ & Heq & Hws & _).
  rewrite contains_app in Hbar. apply orb_false_elim in Hbar as [_ Hbar2].
  rewrite <- append_assoc in Heq.
  apply first_cut_unique in Heq as [Heq _].
  - rewrite <- Heq, all_chars_app in Hws.
    apply andb_true_iff in Hws as [Ht2 _].
    rewrite (ends_with_space_app t1 t2 Hne) in Hend.
    rewrite (spaces_end_with_space t2 Hne Ht2) in Hend. discriminate.
  - rewrite contains_app, Hbar2. apply spaces_have_no_bar, H3.
  - apply spaces_have_no_bar, Hws.
Qed.

(** A line of the shape of a mode line whose name holds no bar and
    no white space at its ends yields the id with the name. *)
Lemma mode_of_line_recognises (line id name category : string) :
  mode_line line id name category ->
  PyStr.contains "|" name = false ->
  starts_with_space name = false ->
  ends_with_space name = false ->
  mode_of_line line = Some (id, name).
Proof.
  intros (ws0 & ws1 & ws2 & ws3 & ws4 & tail & -> & Hws
          & Hid & Hdigits & Hname & Hdots & Hcat & Hcdots & Hend)
         Hbar Hstart Hends.
  apply Forall_cons in Hws as [H0 Hws]. apply Forall_cons in Hws as [H1 Hws].
  apply Forall_cons in Hws as [H2 Hws]. apply Forall_cons in Hws as [H3 Hws].
  apply Forall_cons in Hws as [H4 _].
  destruct (after_name_matches [id; name] ws3 ws4 category tail
              H3 H4 Hcat Hcdots Hend) as [d Hd].
  assert (Hrun : Re.match_line
                   (ws0 +:+ id +:+ ws1 +:+ "|" +:+ ws2 +:+ name +:+ ws3 +:+ "|"
                    +:+ ws4 +:+ category +:+ tail)
                 = Some [id; name; d]).
  { unfold Re.match_line, Re.pattern.
    rewrite !(append_cons "|"), !append_nil.
    (* leading white space *)
    rewrite run_star. apply greedy_longest; [exact H0| |].
    { apply stops_at_head with (P := Re.digit); try assumption.
      intros c Hc. apply digit_not_space in Hc. unfold not_space in Hc.
      apply negb_true_iff in Hc. exact Hc. }
    rewrite ?append_nil.
    (* the id *)
    destruct id as [|c id']; [congruence|].
    cbn [all_chars] in Hdigits. apply andb_true_iff in Hdigits as [Hc Hid'].
    rewrite append_cons, (run_plus _ _ _ _ _ _ Hc).
    apply greedy_longest; [exact Hid'| |].
    { apply stops_before_bar with (P := PyStr.is_space);
        [exact H1 | apply space_not_digit | reflexivity]. }
    rewrite ?append_cons, ?append_nil. cbn [app].
    (* white space, the bar, white space *)
    rewrite run_star. apply greedy_longest; [exact H1 | reflexivity |].
    rewrite ?append_nil. rewrite run_once by reflexivity.
    rewrite run_star. apply greedy_longest; [exact H2| |].
    { destruct name as [|n name']; [congruence|].
      rewrite append_cons. exact Hstart. }
    rewrite ?append_nil.
    (* the name *)
    destruct name as [|n name'] eqn:Hn; [congruence|]. rewrite <- Hn in *.
    assert (Hn' : all_chars Re.dot name' = true /\ Re.dot n = true).
    { rewrite Hn in Hdots. cbn in Hdots. apply andb_true_iff in Hdots. tauto. }
    destruct Hn' as [Hname' Hdn].
    rewrite Hn at 1. rewrite append_cons, (run_lazy _ _ _ _ _ _ Hdn).
    apply reluctant_first; [exact Hname'| |].
    - intros t1 t2 Heq Ht2. rewrite append_cons, append_nil. cbn [app].
      apply (after_name_fails_inside _ name (String n t1) t2);
        try assumption.
      rewrite Hn, Heq, append_cons. reflexivity.
    - rewrite append_cons, append_nil, <- Hn. exact Hd. }
  unfold mode_of_line. rewrite Hrun.
  rewrite (strip_no_space id)
    by (eapply all_chars_impl; [apply digit_not_space | exact Hdigits]).
  unfold PyStr.strip. rewrite lstrip_fixed by (apply starts_with_space_head, Hstart).
  rewrite rstrip_fixed by exact Hends. reflexivity.
Qed.

(** X15. Every line of the shape that hashcat prints for a mode
    becomes a candidate: where a line of the output is white space,
    the digits of the id, white space, a bar, white space, the name,
    white space, a bar and a category, and the name holds no bar and
    no white space at its ends, [get_candidate_modes] returns the id
    with the name. *)
Theorem mode_lines_become_candidates (stdout line id name category : string) :
  line ∈ PyStr.splitlines stdout ->
  mode_line line id name category ->
  PyStr.contains "|" name = false ->
  starts_with_space name = false ->
  ends_with_space name = false ->
  (id, name) ∈ modes_of_stdout stdout.
Proof.
  intros Hline Hshape Hbar Hstart Hends.
  rewrite modes_of_stdout_omap. apply list_elem_of_omap.
  exists line. split; [exact Hline|].
  exact (mode_of_line_recognises line id name category Hshape Hbar Hstart Hends).
Qed.

End Recognition.

(** ** Concrete runs *)

Module Runs.
Import Demo.

Lemma single_env_roundtrip : json_roundtrip (E := single_env).
Proof. intros v. reflexivity. Defined.

Lemma md5_shown_lines (subset : list string) (w : nat) :
  PyStr.splitlines (PyStr.strip (md5_shown subset w))
  = (if (bool_decide (md5_password ∈ subset) && (1 <=? w)%nat)%bool
     then [md5_password +:+ ":password"] else [])
    ++ (if (bool_decide (md5_123456 ∈ subset) && (2 <=? w)%nat)%bool
        then [md5_123456 +:+ ":123456"] else []).
Proof.
  unfold md5_shown, found.
  destruct (bool_decide (md5_password ∈ subset) && (1 <=? w)%nat)%bool;
    destruct (bool_decide (md5_123456 ∈ subset) && (2 <=? w)%nat)%bool;
    vm_compute; reflexivity.
Qed.

Lemma single_env_reports_subset : show_reports_subset (E := single_env).
Proof.
  intros mode subset wordlist w. unfold reports_subset.
  change (hashcat_show mode subset wordlist w).1 with (md5_shown subset w).
  rewrite md5_shown_lines. apply Forall_app. split.
  - destruct (bool_decide (md5_password ∈ subset) && (1 <=? w)%nat)%bool
      eqn:Hin; [|constructor].
    apply andb_true_iff in Hin as [Hin _].
    constructor; [|constructor]. intros _.
    exists md5_password, "password".
    split; [split; reflexivity | exact (bool_decide_eq_true_1 _ Hin)].
  - destruct (bool_decide (md5_123456 ∈ subset) && (2 <=? w)%nat)%bool
      eqn:Hin; [|constructor].
    apply andb_true_iff in Hin as [Hin _].
    constructor; [|constructor]. intros _.
    exists md5_123456, "123456".
    split; [split; reflexivity | exact (bool_decide_eq_true_1 _ Hin)].
Defined.

(** C3 fails as stated: a salted hash line [cc33:NaCl] is printed as
    [cc33:NaCl:gamma], and the pair cut at the first colon has the
    hash [cc33], which is not in the pending list. *)
Lemma extraction_outside_pending :
  (extract_cracked_from_pot (E := salted_env) "10" ["cc33:NaCl"] "rockyou.txt"
     (boot (E := salted_env) None 1%nat)).1 = Ok [("cc33", "NaCl:gamma")]
  /\ ~ Forall (fun p : string * string => p.1 ∈ ["cc33:NaCl"])
       [("cc33", "NaCl:gamma")].
Proof.
  split; [reflexivity|].
  intros H. apply Forall_cons in H as [H _]. simpl in H.
  apply list_elem_of_singleton in H. discriminate.
Qed.

Lemma extraction_within_pending_witness :
  exists pairs s',
    extract_cracked_from_pot (E := single_env) "0" [md5_password] "rockyou.txt"
      (boot (E := single_env) None 1%nat) = (Ok pairs, s')
    /\ Forall (fun p => p.1 ∈ [md5_password]) pairs.
Proof.
  apply (extraction_within_pending (E := single_env) "0" [md5_password]
           "rockyou.txt" (boot (E := single_env) None 1%nat)).
  apply single_env_reports_subset.
Defined.

Lemma empty_pending_skips_witness :
  let s := State (E := single_env) {[ str_key md5_password "0" ]}
             (PyList []) [] None 1%nat [] in
  attempt_mode [md5_password] "rockyou.txt" ("0", "MD5") s
  = (Ok tt, with_trace s [Print (MsgSkipped "0" "MD5")]).
Proof.
  intros s.
  apply (empty_pending_skips (E := single_env) [md5_password] "rockyou.txt"
           "0" "MD5" s).
  vm_compute. reflexivity.
Defined.

Lemma ledger_roundtrip_witness :
  let e := LogEntry md5_password "0" "password" stamp in
  (load_log_entries (E := single_env)
     (ledger (append_log (entry_dict e) (boot (E := single_env) None 1%nat)).2)).1
  = {[ entry_tuple e ]}.
Proof.
  intros e.
  rewrite <- (right_id_L ∅ (∪) {[ entry_tuple e ]}).
  exact (ledger_roundtrip (E := single_env) [e] 1%nat single_env_roundtrip).
Defined.

Lemma first_run_logs_password :
  first_run.1 = Raise (SystemExit 0)
  /\ logged (trace first_run.2)
     = [make_entry md5_password "0" "password" stamp].
Proof. vm_compute. split; reflexivity. Qed.

(** The rerun of the scenario skips the mode and appends nothing. *)
Lemma second_run_skips :
  second_run.1 = Raise (SystemExit 0)
  /\ logged (trace second_run.2) = []
  /\ trace second_run.2
     = [Print (MsgEnumerating "hashes.txt"); Enumerate "hashes.txt";
        Print (MsgCandidates [("0", "MD5")]); Print MsgStarting;
        Print (MsgSkipped "0" "MD5"); Print MsgSummaryHeader;
        Print MsgNothingCracked].
Proof. vm_compute. repeat split; reflexivity. Qed.

(** C2 fails as stated: after the entry of the first run is
    appended, the log entries have its tuple and the derived set is
    still empty. *)
Lemma derived_set_goes_stale :
  exists K,
    key_set (log_entries first_run.2) = Ok K
    /\ str_key md5_password "0" ∈ K
    /\ str_key md5_password "0" ∉ already_cracked first_run.2.
Proof.
  assert (Hlog : log_entries first_run.2
                 = PyList ([] ++ [make_entry md5_password "0" "password" stamp]))
    by (vm_compute; reflexivity).
  exists (∅ ∪ {[ str_key md5_password "0" ]}). split; [|split].
  - rewrite Hlog. apply key_set_snoc. reflexivity.
  - apply elem_of_union_r, elem_of_singleton. reflexivity.
  - apply (bool_decide_eq_false_1
             (str_key md5_password "0" ∈ already_cracked first_run.2)).
    vm_compute. reflexivity.
Qed.

Lemma derived_set_is_startup_snapshot_witness :
  let s0 := (load_log (boot (E := single_env) None 1%nat)).2 in
  let s := (append_log (make_entry md5_password "0" "password" stamp) s0).2 in
  already_cracked s = (load_log_entries (E := single_env) None).1
  /\ key_set (log_entries s)
     = Ok (already_cracked s ∪ list_to_set [str_key md5_password "0"]).
Proof.
  intros s0 s.
  apply (derived_set_is_startup_snapshot (E := single_env)
           (boot (E := single_env) None 1%nat) s0
           [str_key md5_password "0"] s).
  - reflexivity.
  - apply (run_append s0 [] s0 md5_password "0" "password" stamp s).
    + apply run_start.
    + reflexivity.
Defined.

(** C4: the failing input.  One mode cracks the two hashes of the
    corpus, and [cracked_summary] ends with two records of that mode,
    each holding both pairs: the record is appended once per pair. *)
Theorem summary_repeats_the_mode :
  let s := (main (E := plain_env) argv (files corpus_two)
              (boot (E := plain_env) None 1%nat)).2 in
  cracked_summary s
  = [("0", "MD5", [("aa11", "alpha"); ("bb22", "beta")]);
     ("0", "MD5", [("aa11", "alpha"); ("bb22", "beta")])].
Proof. vm_compute. reflexivity. Qed.

(** C7: the failing input.  A ledger file that holds the JSON object
    [{}] is not a list of records, but the loader returns the empty
    dict as the list of entries; the first [append_log] then raises
    [AttributeError] and ends the run. *)
Theorem empty_object_ledger_is_fatal :
  (load_log_entries (E := plain_env) (Some (PyDict []))).2 = PyDict []
  /\ (main (E := plain_env) argv (files corpus_two)
        (boot (E := plain_env) (Some (PyDict [])) 1%nat)).1
     = Raise AttributeError.
Proof. split; vm_compute; reflexivity. Qed.


(** C5 fails as stated: the salted line [cc33:NaCl] is logged under
    the hash [cc33], so it stays pending; the second run cracks it
    again and appends an entry whose tuple the ledger already held
    after the first run. *)
Lemma rerun_appends_known_tuple :
  logged (trace salted_second.2)
  = [make_entry "cc33" "10" "NaCl:gamma" stamp]
  /\ entry_key (make_entry "cc33" "10" "NaCl:gamma" stamp)
     = Ok (str_key "cc33" "10")
  /\ str_key "cc33" "10"
     ∈ (load_log_entries (E := salted_env) (ledger salted_first.2)).1.
Proof.
  split; [vm_compute; reflexivity|]. split; [reflexivity|].
  apply (bool_decide_eq_true_1
           (str_key "cc33" "10"
            ∈ (load_log_entries (E := salted_env) (ledger salted_first.2)).1)).
  vm_compute. reflexivity.
Qed.

Lemma rerun_appends_nothing_known_witness :
  Forall (fresh_entry (load_log_entries (ledger partial_run.2)).1)
    (logged (trace resumed_run.2)).
Proof.
  apply (rerun_appends_nothing_known (E := single_env) argv
           (files corpus_both) None 1%nat 2%nat).
  apply tool_reports_run, single_env_reports_subset.
Defined.

(** In that pair of runs the first appends the entry of one hash and
    the second only the entry of the other. *)
Lemma resumed_run_logs_the_rest :
  logged (trace partial_run.2)
  = [make_entry md5_password "0" "password" stamp]
  /\ logged (trace resumed_run.2)
     = [make_entry md5_123456 "0" "123456" stamp].
Proof. vm_compute. split; reflexivity. Qed.

(** The tool of [plain_env] does not list hashes of the subset only
    on every subset: given the salted line it prints a line whose
    first colon cuts off [cc33]. *)
Lemma plain_tool_misreports : ~ show_reports_subset (E := plain_env).
Proof.
  intros H. specialize (H "10" ["cc33:NaCl"] "rockyou.txt" 1%nat).
  unfold reports_subset in H.
  change (PyStr.splitlines
            (PyStr.strip
               (hashcat_show (Env := plain_env) "10" ["cc33:NaCl"]
                  "rockyou.txt" 1%nat).1))
    with ["cc33:NaCl:gamma"] in H.
  apply Forall_cons in H as [H _].
  destruct (H eq_refl) as (h & clear & [Hline Hh] & Hin).
  apply list_elem_of_singleton in Hin. subst h. discriminate Hh.
Qed.

(** On the two plain hash lines every show call of its runs does:
    the one of the first run, and none is made in the second. *)
Lemma plain_run_reports :
  run_reports (E := plain_env) argv (files corpus_two)
    (boot (E := plain_env) None 1%nat).
Proof.
  vm_compute. split; [|exact I].
  constructor.
  { intros _. exists "aa11", "alpha". split; [split; reflexivity | constructor]. }
  constructor; [|constructor].
  intros _. exists "bb22", "beta".
  split; [split; reflexivity | do 2 constructor].
Qed.

Lemma plain_rerun_reports :
  run_reports (E := plain_env) argv (files corpus_two)
    (boot (E := plain_env) (ledger plain_first.2) 1%nat).
Proof. vm_compute. split; exact I. Qed.

(** On the ledger that holds the empty object the run is ended by
    the exception, under no fatal condition, and the process ends with
    exit code 1. *)
Lemma crash_exits_1 :
  let r := (main (E := plain_env) argv (files corpus_two)
              (boot (E := plain_env) (Some (PyDict [])) 1%nat)).1 in
  r = Raise AttributeError
  /\ exit_status r = 1%Z
  /\ ~ fatal_condition (E := plain_env) argv (files corpus_two) 1%nat.
Proof.
  split; [vm_compute; reflexivity|]. split; [vm_compute; reflexivity|].
  intros [H | [H | [H | [H | (stdout & Hout & Hmodes)]]]].
  - apply H. reflexivity.
  - vm_compute in H. discriminate.
  - vm_compute in H. discriminate.
  - vm_compute in H. discriminate.
  - change (Some md5_modes = Some stdout) in Hout.
    injection Hout as <-. vm_compute in Hmodes. discriminate.
Qed.

Lemma no_bars_no_candidates_witness :
  modes_of_stdout ("hashcat (v6.2.6) starting" +:+ nl +:+ nl) = [].
Proof.
  apply (no_bars_no_candidates ("hashcat (v6.2.6) starting" +:+ nl +:+ nl)).
  vm_compute. repeat constructor.
Defined.

Lemma load_log_entries_records_witness :
  let items := [make_entry md5_password "0" "password" stamp] in
  exists seen,
    load_log_entries (E := single_env) (Some (PyList items))
    = (seen, PyList items)
    /\ forall k, k ∈ seen <-> exists e, e ∈ items /\ entry_key e = Ok k.
Proof.
  intros items.
  apply (load_log_entries_records (E := single_env) (PyList items) items).
  - reflexivity.
  - constructor; [|constructor]. eexists. reflexivity.
Defined.

Lemma non_list_ledger_is_never_written_witness :
  let s := (main (E := plain_env) argv (files corpus_two)
              (boot (E := plain_env) (Some (PyDict [])) 1%nat)).2 in
  ledger s = Some (PyDict []) /\ logged (trace s) = [].
Proof.
  apply (non_list_ledger_is_never_written (E := plain_env)
           (PyDict []) (PyDict []) argv (files corpus_two) 1%nat).
  - reflexivity.
  - left. reflexivity.
Defined.

Lemma next_run_loads_every_tuple_witness :
  let k := str_key md5_password "0" in
  k ∈ loaded_keys (E := single_env) (ledger first_run.2)
  <-> k ∈ loaded_keys (E := single_env) None
      \/ exists entry, entry ∈ logged (trace first_run.2)
                       /\ entry_key entry = Ok k.
Proof.
  intros k.
  exact (next_run_loads_every_tuple (E := single_env) None argv
           (files corpus_md5) 1%nat single_env_roundtrip k).
Defined.

Lemma load_log_entries_fallback_witness :
  load_log_entries (E := single_env) (Some (PyInt 3)) = (∅, PyList []).
Proof.
  apply (load_log_entries_fallback (E := single_env) (Some (PyInt 3))).
  right. exists (PyInt 3). split; [reflexivity|]. right.
  exists (PyInt 3). split; [reflexivity|].
  split; [|split; discriminate].
  intros (items & Hitems & _). discriminate Hitems.
Defined.

Lemma log_pairs_summary_witness :
  let pairs := [(md5_password, "password"); (md5_123456, "123456")] in
  let s := boot (E := single_env) None 1%nat in
  cracked_summary (for_each (log_pair "0" "MD5" pairs) pairs s).2
  = cracked_summary s ++ replicate 2 ("0", "MD5", pairs).
Proof.
  intros pairs s.
  apply (log_pairs_summary (E := single_env) "0" "MD5" pairs pairs s
           (for_each (log_pair "0" "MD5" pairs) pairs s).2).
  reflexivity.
Defined.

Lemma run_attacks_the_pending_modes_witness :
  attacks (trace first_run.2)
  = attacked (loaded_keys (E := single_env) None)
      (hashes_of_text corpus_md5) (modes_of_stdout md5_modes)
  /\ subsets (trace first_run.2)
     = written (loaded_keys (E := single_env) None)
         (hashes_of_text corpus_md5) (modes_of_stdout md5_modes).
Proof.
  apply (run_attacks_the_pending_modes (E := single_env) argv
           (files corpus_md5) None 1%nat corpus_md5 md5_modes).
  - reflexivity.
  - reflexivity.
  - vm_compute. reflexivity.
Defined.


Lemma mode_lines_become_candidates_witness :
  ("1400", "SHA2-256")
  ∈ modes_of_stdout
      ("The following hash-mode matches" +:+ nl
       +:+ "   1400 | SHA2-256 | Raw Hash" +:+ nl).
Proof.
  apply (mode_lines_become_candidates
           ("The following hash-mode matches" +:+ nl
            +:+ "   1400 | SHA2-256 | Raw Hash" +:+ nl)
           "   1400 | SHA2-256 | Raw Hash" "1400" "SHA2-256" "Raw Hash").
  - change (PyStr.splitlines
              ("The following hash-mode matches" +:+ nl
               +:+ "   1400 | SHA2-256 | Raw Hash" +:+ nl))
      with ["The following hash-mode matches"; "   1400 | SHA2-256 | Raw Hash"].
    right. left.
  - exists "   ", " ", " ", " ", " ", "".
    split; [reflexivity|]. split; [repeat constructor|].
    repeat split; try discriminate; reflexivity.
  - reflexivity.
  - reflexivity.
  - reflexivity.
Defined.

End Runs.
